(** * Pragati backend: spatial schema, bounding-box query and village import

  A shallow embedding of
  - the [/api/villages] bounding-box query (server entry points),
  - [importVillages] (village import script),
  - [SchemaManager] (src/config/schema.js),
  - [DatabaseManager] (src/config/database.js), the entry points that call
    the two managers, and the [/api/claims] handler,
  with the PostgreSQL store modelled by explicit state:  tables are lists
  of rows in heap order, the catalog is a record of finite maps, and a
  statement the store refuses is an error value. *)

From Stdlib Require Import QArith DecimalString.
From stdpp Require Import gmap strings list sorting.

(** ** JavaScript values met in a feature's [properties] bag *)

Module Js.

(** A JSON property value.  Numbers are the integral ones; an object or an
    array is kept with the text node-postgres serialises it to. *)
Inductive value :=
| Undefined
| Null
| Bool (b : bool)
| Num (z : Z)
| Str (s : string)
| Composite (text : string).

(** ToBoolean. *)
Definition truthy (v : value) : bool :=
  match v with
  | Undefined | Null => false
  | Bool b => b
  | Num z => negb (z =? 0)%Z
  | Str s => negb (String.eqb s EmptyString)
  | Composite _ => true
  end.

(** [a || b]. *)
Definition or (a b : value) : value := if truthy a then a else b.

(** Reading a key of an object: a missing key reads as [undefined]. *)
Definition get (o : gmap string value) (k : string) : value :=
  default Undefined (o !! k).

(** How node-postgres binds a value to a text parameter:  [null] and
    [undefined] become SQL NULL, everything else its string form. *)
Definition pg_text (v : value) : option string :=
  match v with
  | Undefined | Null => None
  | Bool true => Some "true"%string
  | Bool false => Some "false"%string
  | Num z => Some (NilZero.string_of_int (Z.to_int z))
  | Str s => Some s
  | Composite t => Some t
  end.

End Js.

(** ** SQL three-valued logic *)

Module Sql.

(** A truth value; [None] is UNKNOWN. *)
Definition tv := option bool.

Definition and3 (a b : tv) : tv :=
  match a, b with
  | Some false, _ | _, Some false => Some false
  | Some true, Some true => Some true
  | _, _ => None
  end.

Definition or3 (a b : tv) : tv :=
  match a, b with
  | Some true, _ | _, Some true => Some true
  | Some false, Some false => Some false
  | _, _ => None
  end.

(** [x IS NULL] is never UNKNOWN. *)
Definition is_null {A} (x : option A) : tv :=
  match x with None => Some true | Some _ => Some false end.

(** [a <= b] on NUMERIC. *)
Definition le3 (a b : option Q) : tv :=
  match a, b with
  | Some x, Some y => Some (Qle_bool x y)
  | _, _ => None
  end.

(** [x BETWEEN lo AND hi] is [x >= lo AND x <= hi]. *)
Definition between3 (x lo hi : option Q) : tv :=
  and3 (le3 lo x) (le3 x hi).

(** [a = b] on TEXT. *)
Definition eq3 (a b : option string) : tv :=
  match a, b with
  | Some x, Some y => Some (String.eqb x y)
  | _, _ => None
  end.

(** A WHERE clause keeps the rows on which the condition is TRUE. *)
Definition holds (t : tv) : bool :=
  match t with Some true => true | _ => false end.

End Sql.

(** ** The [villages] table, fallback layout *)

Module Village.

(** One row.  The two timestamp columns play no part in any statement
    modelled here and are left out. *)
Record t := mk {
  id : Z;
  gid : option string;
  name : string;
  state : option string;
  district : option string;
  block : option string;
  properties : gmap string Js.value;
  boundary_geojson : option string;
  centroid_lat : option Q;
  centroid_lon : option Q
}.

End Village.

(** ** GET /api/villages *)

Module VillagesApi.

Import Sql.

(** The WHERE clause, with the statement's parameters [$1 .. $4]. *)
Definition bbox_where (p1 p2 p3 p4 : option Q) (r : Village.t) : tv :=
  and3 (or3 (between3 (Village.centroid_lat r) p1 p2)
            (is_null (Village.centroid_lat r)))
       (or3 (between3 (Village.centroid_lon r) p3 p4)
            (is_null (Village.centroid_lon r))).

(** The handler binds [[minLat, maxLat, minLon, maxLon]] to [$1 .. $4]. *)
Definition in_box (minLon minLat maxLon maxLat : Q) (r : Village.t) : bool :=
  holds (bbox_where (Some minLat) (Some maxLat) (Some minLon) (Some maxLon) r).

(** The rows the WHERE clause keeps, in heap order. *)
Definition eligible (tbl : list Village.t) (minLon minLat maxLon maxLat : Q)
  : list Village.t :=
  List.filter (in_box minLon minLat maxLon maxLat) tbl.

Definition name_le (a b : Village.t) : Prop :=
  String.le (Village.name a) (Village.name b).

#[global] Instance name_le_dec : RelDecision name_le.
Proof. intros a b. unfold name_le. apply _. Defined.

(** [ORDER BY name]:  the rows, rearranged so that names ascend.  The
    statement names no second sort key, so any arrangement of rows with
    equal names is a result. *)
Definition order_by_name (rows out : list Village.t) : Prop :=
  rows ≡ₚ out ∧ StronglySorted name_le out.

(** The whole statement:  WHERE, then ORDER BY name, then LIMIT. *)
Definition queryByBoundingBox (tbl : list Village.t)
    (minLon minLat maxLon maxLat : Q) (limit : nat)
    (res : list Village.t) : Prop :=
  ∃ sorted,
    order_by_name (eligible tbl minLon minLat maxLon maxLat) sorted
    ∧ res = take limit sorted.

(** One executor of the statement: a merge sort on the name. *)
Definition run_query (tbl : list Village.t)
    (minLon minLat maxLon maxLat : Q) (limit : nat) : list Village.t :=
  take limit (merge_sort name_le (eligible tbl minLon minLat maxLon maxLat)).


(** The centroid columns of [r] hold the numbers [lat] and [lon]. *)
Definition centroid_is (r : Village.t) (lat lon : Q) : Prop :=
  ∃ a b, Village.centroid_lat r = Some a ∧ Village.centroid_lon r = Some b
         ∧ (a == lat)%Q ∧ (b == lon)%Q.

(** A row with the given key, name and centroid columns. *)
Definition sample_row (i : Z) (n : string) (lat lon : option Q) : Village.t :=
  {| Village.id := i; Village.gid := None; Village.name := n;
     Village.state := None; Village.district := None; Village.block := None;
     Village.properties := ∅; Village.boundary_geojson := None;
     Village.centroid_lat := lat; Village.centroid_lon := lon |}.

End VillagesApi.


(** ** importVillages *)

Module ImportVillages.

Import Sql.

(** One element of [geoData.features].  A feature without a [properties]
    object makes [properties.gid] throw.  [geometry] is the text
    [JSON.stringify(geometry)] yields, absent when it yields [undefined]. *)
Record feature := mkFeature {
  properties : option (gmap string Js.value);
  geometry : option string
}.

(** The object [villageData]. *)
Record villageData := mkVillageData {
  vd_gid : Js.value;
  vd_name : Js.value;
  vd_state : Js.value;
  vd_district : Js.value;
  vd_block : Js.value;
  vd_properties : gmap string Js.value
}.

Definition extract (p : gmap string Js.value) : villageData :=
  {| vd_gid := Js.or (Js.get p "gid") Js.Null;
     vd_name := Js.or (Js.or (Js.get p "name") (Js.get p "NAME"))
                      (Js.Str "Unknown");
     vd_state := Js.or (Js.or (Js.get p "state") (Js.get p "STATE")) Js.Null;
     vd_district :=
       Js.or (Js.or (Js.get p "district") (Js.get p "DISTRICT")) Js.Null;
     vd_block := Js.or (Js.or (Js.get p "block") (Js.get p "BLOCK")) Js.Null;
     vd_properties := p |}.

(** The store as the script sees it:  the rows of [villages] in insertion
    order and the next value of the SERIAL sequence behind [id]. *)
Record store := mkStore {
  rows : list Village.t;
  next_id : Z
}.

(** [gid = $1 OR (name = $2 AND district = $3)]. *)
Definition dedupe_where (p1 p2 p3 : option string) (r : Village.t) : tv :=
  or3 (eq3 (Village.gid r) p1)
      (and3 (eq3 (Some (Village.name r)) p2) (eq3 (Village.district r) p3)).

(** [SELECT id FROM villages WHERE ...]. *)
Definition select_existing (db : store) (vd : villageData) : list Village.t :=
  List.filter
    (λ r, holds (dedupe_where (Js.pg_text (vd_gid vd)) (Js.pg_text (vd_name vd))
                              (Js.pg_text (vd_district vd)) r))
    (rows db).

(** The row an INSERT of [villageData] makes:  the centroid columns are not
    in the column list and stay NULL. *)
Definition new_row (i : Z) (vd : villageData) (n : string) (g : option string)
  : Village.t :=
  {| Village.id := i;
     Village.gid := Js.pg_text (vd_gid vd);
     Village.name := n;
     Village.state := Js.pg_text (vd_state vd);
     Village.district := Js.pg_text (vd_district vd);
     Village.block := Js.pg_text (vd_block vd);
     Village.properties := vd_properties vd;
     Village.boundary_geojson := g;
     Village.centroid_lat := None;
     Village.centroid_lon := None |}.

(** [INSERT INTO villages (gid, name, state, district, block, properties,
    boundary_geojson) VALUES ($1 .. $7)].  A NULL name violates NOT NULL. *)
Definition insert_village (db : store) (vd : villageData) (g : option string)
  : option store :=
  match Js.pg_text (vd_name vd) with
  | None => None
  | Some n =>
      Some {| rows := rows db ++ [new_row (next_id db) vd n g];
              next_id := (next_id db + 1)%Z |}
  end.

(** What the store does with the statements issued for one feature:
    it serves them, or it refuses the SELECT, or it refuses the INSERT
    (unreachable store, timeout, ...).  A refused statement leaves the table
    as it was. *)
Inductive fault := NoFault | SelectFails | InsertFails.

Inductive outcome := Imported | Skipped | Errored.

(** The body of the [try] block of the loop. *)
Definition import_one (db : store) (f : feature) (flt : fault)
  : store * outcome :=
  match properties f with
  | None => (db, Errored)
  | Some p =>
      let vd := extract p in
      match flt with
      | SelectFails => (db, Errored)
      | _ =>
          if (0 <? length (select_existing db vd))%nat then (db, Skipped)
          else
            match flt with
            | InsertFails => (db, Errored)
            | _ =>
                match insert_village db vd (geometry f) with
                | Some db' => (db', Imported)
                | None => (db, Errored)
                end
            end
      end
  end.

(** The three counters. *)
Record counters := mkCounters {
  imported : nat;
  skipped : nat;
  errors : nat
}.

(** [for (const feature of geoData.features) { try .. catch .. }]. *)
Fixpoint import_loop (fs : list (feature * fault)) (db : store) (c : counters)
  : store * counters :=
  match fs with
  | [] => (db, c)
  | (f, flt) :: rest =>
      match import_one db f flt with
      | (db', Imported) =>
          import_loop rest db'
            {| imported := imported c + 1; skipped := skipped c;
               errors := errors c |}
      | (db', Skipped) =>
          import_loop rest db'
            {| imported := imported c; skipped := skipped c + 1;
               errors := errors c |}
      | (db', Errored) =>
          let c' := {| imported := imported c; skipped := skipped c;
                       errors := errors c + 1 |} in
          if (10 <? errors c')%nat then (db', c') else import_loop rest db' c'
      end
  end.

(** The import summary:  the counters and [SELECT COUNT( * ) FROM villages]. *)
Record summary := mkSummary {
  s_imported : nat;
  s_skipped : nat;
  s_errors : nat;
  s_total : nat
}.

Definition importVillages (fs : list (feature * fault)) (db : store)
  : store * summary :=
  let r := import_loop fs db {| imported := 0; skipped := 0; errors := 0 |} in
  (r.1, {| s_imported := imported r.2; s_skipped := skipped r.2;
           s_errors := errors r.2; s_total := length (rows r.1) |}).

(** The row has no centroid. *)
Definition lacks_centroid (r : Village.t) : Prop :=
  Village.centroid_lat r = None ∧ Village.centroid_lon r = None.

(** A run against a store that serves every statement. *)
Definition served (fs : list feature) : list (feature * fault) :=
  List.map (λ f, (f, NoFault)) fs.

(** Processing the feature in this state of the store ends in the [catch]
    block. *)
Definition fails (db : store) (x : feature * fault) : Prop :=
  (import_one db x.1 x.2).2 = Errored.

(** The feature yields an external id or a district the dedupe query can
    compare (a falsy value such as [0] or the empty string is extracted as
    [null]). *)
Definition keyed (f : feature) : Prop :=
  ∀ p, properties f = Some p →
    Js.pg_text (vd_gid (extract p)) ≠ None
    ∨ Js.pg_text (vd_district (extract p)) ≠ None.

(** The script run [k] times over the same features, the store serving
    every statement. *)
Definition rerun (fs : list feature) (k : nat) (db : store) : store :=
  Nat.iter k (λ d, (importVillages (served fs) d).1) db.

Definition empty_store : store := {| rows := []; next_id := 1 |}.

Definition no_counts : counters :=
  {| imported := 0; skipped := 0; errors := 0 |}.

(** A feature whose [properties] hold just these keys. *)
Definition sample_feature (kvs : list (string * Js.value)) : feature :=
  {| properties := Some (list_to_map kvs); geometry := Some "{}"%string |}.


End ImportVillages.


(** ** SchemaManager (src/config/schema.js) *)

Module Schema.

Inductive index_method := Btree | Gist | Gin.

Record index_def := mkIndex {
  on_table : string;
  method : index_method;
  on_expr : string
}.

(** The DDL statements the manager issues.  A trigger is always recreated
    by one two-command query (DROP TRIGGER IF EXISTS; CREATE TRIGGER), which
    the store runs as a unit. *)
Inductive stmt :=
| CreateExtension (ext : string)
| CreateTable (tbl : string) (columns : list (string * string))
| CreateIndex (idx : string) (def : index_def)
| CreateFunction (fn : string) (body : string)
| RecreateTrigger (trg : string) (tbl : string) (timing : string) (fn : string).

#[global] Instance index_method_eq_dec : EqDecision index_method.
Proof. solve_decision. Defined.
#[global] Instance index_def_eq_dec : EqDecision index_def.
Proof. solve_decision. Defined.
#[global] Instance stmt_eq_dec : EqDecision stmt.
Proof. solve_decision. Defined.

(** The catalog of the database: what exists, by name. *)
Record catalog := mkCatalog {
  extensions : gset string;
  tables : gmap string (list (string * string));
  indexes : gmap string index_def;
  functions : gmap string string;
  triggers : gmap (string * string) (string * string)
}.

(** [CREATE .. IF NOT EXISTS]: an existing object of that name is kept. *)
Definition create_if_absent {V} (k : string) (v : V) (m : gmap string V)
  : gmap string V :=
  match m !! k with
  | Some _ => m
  | None => <[k := v]> m
  end.

(** The effect of a statement the store accepts. *)
Definition apply (s : stmt) (c : catalog) : catalog :=
  match s with
  | CreateExtension e =>
      mkCatalog ({[e]} ∪ extensions c) (tables c) (indexes c) (functions c)
                (triggers c)
  | CreateTable t cols =>
      mkCatalog (extensions c) (create_if_absent t cols (tables c)) (indexes c)
                (functions c) (triggers c)
  | CreateIndex i d =>
      mkCatalog (extensions c) (tables c) (create_if_absent i d (indexes c))
                (functions c) (triggers c)
  | CreateFunction f b =>
      mkCatalog (extensions c) (tables c) (indexes c) (<[f := b]> (functions c))
                (triggers c)
  | RecreateTrigger g t w f =>
      mkCatalog (extensions c) (tables c) (indexes c) (functions c)
                (<[(t, g) := (w, f)]> (delete (t, g) (triggers c)))
  end.

(** An error thrown by [dbManager.query], with the statement it is about. *)
Inductive error := QueryError (s : stmt).

Inductive result (A : Type) :=
| Ok (a : A)
| Err (e : error).
Arguments Ok {A} a.
Arguments Err {A} e.

(** The manager's field [postgisAvailable], the catalog of the store and the
    statements sent to it so far, oldest first. *)
Record world := mkWorld {
  postgisAvailable : bool;
  cat : catalog;
  issued : list stmt
}.

(** Computations of the manager: they thread the world and may throw. *)
Definition M (A : Type) : Type := world → result A * world.

Definition ret {A} (a : A) : M A := λ w, (Ok a, w).

Definition throw {A} (e : error) : M A := λ w, (Err e, w).

Definition bind {A B} (m : M A) (k : A → M B) : M B :=
  λ w, match m w with
       | (Ok a, w') => k a w'
       | (Err e, w') => (Err e, w')
       end.

(** [try { m } catch (error) { h error }]. *)
Definition try_catch {A} (m : M A) (h : error → M A) : M A :=
  λ w, match m w with
       | (Ok a, w') => (Ok a, w')
       | (Err e, w') => h e w'
       end.

Notation "x <- m ;; k" := (bind m (λ x, k))
  (at level 100, m at next level, right associativity).
Notation "m ;;; k" := (bind m (λ _, k))
  (at level 100, right associativity).

(** [for (const x of xs) { body x }]. *)
Fixpoint for_each {A} (xs : list A) (body : A → M unit) : M unit :=
  match xs with
  | [] => ret tt
  | x :: rest => body x ;;; for_each rest body
  end.

Definition get_postgis : M bool := λ w, (Ok (postgisAvailable w), w).

Definition set_postgis (b : bool) : M unit :=
  λ w, (Ok tt, mkWorld b (cat w) (issued w)).

Section Store.

(** Which statements the store refuses (an extension that is not
    installable, a missing privilege, ...). *)
Variable rejects : stmt → bool.

(** [dbManager.query]:  a refused statement throws and changes nothing. *)
Definition query (s : stmt) : M unit :=
  λ w,
    let log := issued w ++ [s] in
    if rejects s
    then (Err (QueryError s), mkWorld (postgisAvailable w) (cat w) log)
    else (Ok tt, mkWorld (postgisAvailable w) (apply s (cat w)) log).

Record extension := mkExtension {
  ext_name : string;
  required : bool
}.

Definition extension_list : list extension :=
  [ mkExtension "pg_trgm" false;
    mkExtension "btree_gist" false;
    mkExtension "postgis" false;
    mkExtension "postgis_topology" false ].

(** The loop of [enableExtensions], with the local [postgisAvailable]. *)
Fixpoint enable_loop (exts : list extension) (postgis : bool) : M bool :=
  match exts with
  | [] => ret postgis
  | ext :: rest =>
      p <- try_catch
             (query (CreateExtension (ext_name ext)) ;;;
              ret (if String.eqb (ext_name ext) "postgis" then true
                   else postgis))
             (λ e, if required ext then throw e else ret postgis) ;;
      enable_loop rest p
  end.

Definition enableExtensions : M unit :=
  p <- enable_loop extension_list false ;;
  set_postgis p.

(** *** The five tables *)

Definition createVillagesTable (postgis : bool) : stmt :=
  if postgis then
    CreateTable "villages"
      [ ("id", "SERIAL PRIMARY KEY"); ("gid", "TEXT"); ("name", "TEXT NOT NULL");
        ("state", "TEXT"); ("district", "TEXT"); ("block", "TEXT");
        ("properties", "JSONB DEFAULT '{}'");
        ("boundary", "GEOMETRY(MULTIPOLYGON, 4326)");
        ("centroid", "GEOMETRY(POINT, 4326)");
        ("created_at", "TIMESTAMP WITH TIME ZONE DEFAULT NOW()");
        ("updated_at", "TIMESTAMP WITH TIME ZONE DEFAULT NOW()") ]%string
  else
    CreateTable "villages"
      [ ("id", "SERIAL PRIMARY KEY"); ("gid", "TEXT"); ("name", "TEXT NOT NULL");
        ("state", "TEXT"); ("district", "TEXT"); ("block", "TEXT");
        ("properties", "JSONB DEFAULT '{}'");
        ("boundary_geojson", "JSONB");
        ("centroid_lat", "NUMERIC(10, 8)");
        ("centroid_lon", "NUMERIC(11, 8)");
        ("created_at", "TIMESTAMP WITH TIME ZONE DEFAULT NOW()");
        ("updated_at", "TIMESTAMP WITH TIME ZONE DEFAULT NOW()") ]%string.

Definition createClaimantsTable (postgis : bool) : stmt :=
  CreateTable "claimants"
    [ ("id", "SERIAL PRIMARY KEY");
      ("claimant_uuid", "UUID DEFAULT gen_random_uuid()");
      ("name", "TEXT NOT NULL");
      ("claimant_type", "TEXT CHECK (claimant_type IN ('IFR', 'CR'))");
      ("tribal_group", "TEXT");
      ("village_id", "INTEGER REFERENCES villages(id) ON DELETE SET NULL");
      ("area_ha", "NUMERIC(10,4)");
      ("status", "TEXT DEFAULT 'pending' CHECK (status IN ('pending', 'recognized', 'rejected'))");
      (if postgis then ("geom", "GEOMETRY(GEOMETRY, 4326)")
       else ("geometry_geojson", "JSONB"));
      ("properties", "JSONB DEFAULT '{}'");
      ("created_at", "TIMESTAMP WITH TIME ZONE DEFAULT NOW()");
      ("updated_at", "TIMESTAMP WITH TIME ZONE DEFAULT NOW()") ]%string.

Definition createMicroAssetsTable (postgis : bool) : stmt :=
  CreateTable "micro_assets"
    [ ("id", "SERIAL PRIMARY KEY");
      ("asset_uuid", "UUID DEFAULT gen_random_uuid()");
      ("name", "TEXT");
      ("asset_type", "TEXT CHECK (asset_type IN ('water_body', 'vegetation', 'farmland', 'infrastructure'))");
      ("village_id", "INTEGER REFERENCES villages(id) ON DELETE SET NULL");
      ("district", "TEXT");
      ("area_ha", "NUMERIC(10,4)");
      ("status", "TEXT DEFAULT 'active'");
      (if postgis then ("geom", "GEOMETRY(GEOMETRY, 4326)")
       else ("geometry_geojson", "JSONB"));
      ("properties", "JSONB DEFAULT '{}'");
      ("created_at", "TIMESTAMP WITH TIME ZONE DEFAULT NOW()");
      ("updated_at", "TIMESTAMP WITH TIME ZONE DEFAULT NOW()") ]%string.

Definition createDocumentsTable : stmt :=
  CreateTable "documents"
    [ ("id", "SERIAL PRIMARY KEY");
      ("doc_uuid", "UUID DEFAULT gen_random_uuid()");
      ("claimant_id", "INTEGER REFERENCES claimants(id) ON DELETE SET NULL");
      ("filename", "TEXT"); ("file_path", "TEXT"); ("raw_text", "TEXT");
      ("structured", "JSONB DEFAULT '{}'");
      ("ocr_confidence", "NUMERIC(5,4)");
      ("uploaded_by", "TEXT");
      ("uploaded_at", "TIMESTAMP WITH TIME ZONE DEFAULT NOW()") ]%string.

Definition createUsersTable : stmt :=
  CreateTable "users"
    [ ("id", "SERIAL PRIMARY KEY");
      ("username", "TEXT UNIQUE NOT NULL");
      ("display_name", "TEXT");
      ("email", "TEXT UNIQUE");
      ("role", "TEXT DEFAULT 'user' CHECK (role IN ('admin', 'user', 'viewer'))");
      ("password_hash", "TEXT");
      ("is_active", "BOOLEAN DEFAULT true");
      ("created_at", "TIMESTAMP WITH TIME ZONE DEFAULT NOW()");
      ("last_login", "TIMESTAMP WITH TIME ZONE") ]%string.

(** The array [tables] of [createTables]. *)
Definition table_queries (postgis : bool) : list stmt :=
  [ createVillagesTable postgis;
    createClaimantsTable postgis;
    createMicroAssetsTable postgis;
    createDocumentsTable;
    createUsersTable ].

Definition createTables : M unit :=
  p <- get_postgis ;;
  for_each (table_queries p) query.

(** *** Indexes *)

(** An element of the array [indexes]: a statement, or the comment line
    pushed when the trigram index was created. *)
Inductive index_entry :=
| Statement (s : stmt)
| Comment (text : string).

Definition spatial_indexes (postgis : bool) : list stmt :=
  if postgis then
    [ CreateIndex "idx_villages_boundary_gist" (mkIndex "villages" Gist "boundary");
      CreateIndex "idx_villages_centroid" (mkIndex "villages" Gist "centroid");
      CreateIndex "idx_claimants_geom_gist" (mkIndex "claimants" Gist "geom");
      CreateIndex "idx_micro_assets_geom_gist" (mkIndex "micro_assets" Gist "geom") ]
  else
    [ CreateIndex "idx_villages_centroid_lat" (mkIndex "villages" Btree "centroid_lat");
      CreateIndex "idx_villages_centroid_lon" (mkIndex "villages" Btree "centroid_lon");
      CreateIndex "idx_villages_boundary_geojson"
        (mkIndex "villages" Gin "boundary_geojson");
      CreateIndex "idx_claimants_geometry_geojson"
        (mkIndex "claimants" Gin "geometry_geojson");
      CreateIndex "idx_micro_assets_geometry_geojson"
        (mkIndex "micro_assets" Gin "geometry_geojson") ].

Definition common_indexes : list stmt :=
  [ CreateIndex "idx_villages_district" (mkIndex "villages" Btree "district");
    CreateIndex "idx_claimants_village_id" (mkIndex "claimants" Btree "village_id");
    CreateIndex "idx_claimants_type" (mkIndex "claimants" Btree "claimant_type");
    CreateIndex "idx_claimants_status" (mkIndex "claimants" Btree "status");
    CreateIndex "idx_micro_assets_village_id"
      (mkIndex "micro_assets" Btree "village_id");
    CreateIndex "idx_micro_assets_type" (mkIndex "micro_assets" Btree "asset_type");
    CreateIndex "idx_documents_claimant_id"
      (mkIndex "documents" Btree "claimant_id");
    CreateIndex "idx_documents_filename" (mkIndex "documents" Btree "filename") ].

Definition trigram_index : stmt :=
  CreateIndex "idx_villages_name_trgm" (mkIndex "villages" Gin "name gin_trgm_ops").

Definition plain_name_index : stmt :=
  CreateIndex "idx_villages_name" (mkIndex "villages" Btree "name").

(** The statements among the entries. *)
Definition entry_stmts (es : list index_entry) : list stmt :=
  omap (λ e, match e with Statement s => Some s | Comment _ => None end) es.

(** The body of the last loop of [createIndexes]. *)
Definition create_index_entry (e : index_entry) : M unit :=
  match e with
  | Comment _ => ret tt
  | Statement s => try_catch (query s) (λ _, ret tt)
  end.

Definition createIndexes : M unit :=
  p <- get_postgis ;;
  let indexes := List.map Statement (spatial_indexes p ++ common_indexes) in
  indexes <- try_catch
               (query trigram_index ;;;
                ret (indexes ++ [Comment "-- Text search index created"]))
               (λ _, ret (indexes ++ [Statement plain_name_index])) ;;
  for_each indexes create_index_entry.

(** *** Triggers *)

Definition update_village_centroid : stmt :=
  CreateFunction "update_village_centroid"
    "NEW.centroid = ST_Centroid(NEW.boundary); NEW.updated_at = NOW(); RETURN NEW;".

Definition update_village_centroid_simple : stmt :=
  CreateFunction "update_village_centroid_simple"
    "IF NEW.boundary_geojson IS NOT NULL THEN NEW.updated_at = NOW(); END IF; RETURN NEW;".

Definition update_updated_at_column : stmt :=
  CreateFunction "update_updated_at_column"
    "NEW.updated_at = NOW(); RETURN NEW;".

Definition updated_at_trigger (table : string) : stmt :=
  RecreateTrigger ("trg_update_" +:+ table +:+ "_updated_at") table
    "BEFORE UPDATE" "update_updated_at_column".

Definition createTriggers : M unit :=
  p <- get_postgis ;;
  (if p then
     query update_village_centroid ;;;
     query (RecreateTrigger "trg_update_village_centroid" "villages"
              "BEFORE INSERT OR UPDATE" "update_village_centroid")
   else
     query update_village_centroid_simple ;;;
     query (RecreateTrigger "trg_update_village_centroid_simple" "villages"
              "BEFORE INSERT OR UPDATE" "update_village_centroid_simple")) ;;;
  query update_updated_at_column ;;;
  for_each ["claimants"; "micro_assets"]%string
    (λ table, query (updated_at_trigger table)).

(** *** initializeSchema *)

Definition initializeSchema : M bool :=
  try_catch
    (enableExtensions ;;;
     createTables ;;;
     createIndexes ;;;
     createTriggers ;;;
     ret true)
    (λ e, throw e).

End Store.

(** *** getDatabaseStats *)

(** A value of the [stats] object:  the parsed count, or the string
    ['Error']. *)
Inductive stat :=
| Count (n : N)
| ErrorMarker.

Definition stat_tables : list string :=
  [ "villages"; "claimants"; "micro_assets"; "documents"; "users" ]%string.

Section Stats.

(** What [SELECT COUNT( * ) as count FROM table] yields: the count, or
    nothing when the store refuses the query (no such table, ...). *)
Variable count_rows : string → option N.

Fixpoint stats_loop (ts : list string) (stats : gmap string stat)
  : gmap string stat :=
  match ts with
  | [] => stats
  | table :: rest =>
      stats_loop rest
        (match count_rows table with
         | Some n => <[table := Count n]> stats
         | None => <[table := ErrorMarker]> stats
         end)
  end.

Definition getDatabaseStats : gmap string stat := stats_loop stat_tables ∅.

End Stats.

(** *** The statements of a run *)

(** The effect of a list of accepted statements, oldest first. *)
Definition apply_all (ss : list stmt) (c : catalog) : catalog :=
  fold_left (λ c s, apply s c) ss c.

(** A statement is settled in a catalog it does not change. *)
Definition settled (s : stmt) (c : catalog) : Prop := apply s c = c.

(** Two statements conflict when one replaces what the other has put in
    place:  the same function with another body, the same trigger bound
    otherwise. *)
Definition conflict (s s' : stmt) : bool :=
  match s, s' with
  | CreateFunction f b, CreateFunction f' b' =>
      bool_decide (f = f') && negb (bool_decide (b = b'))
  | RecreateTrigger g t w f, RecreateTrigger g' t' w' f' =>
      bool_decide ((t, g) = (t', g')) && negb (bool_decide ((w, f) = (w', f')))
  | _, _ => false
  end.

Definition conflict_free (ss : list stmt) : bool :=
  forallb (λ s, forallb (λ s', negb (conflict s s')) ss) ss.

Section Runs.

Variable rejects : stmt → bool.

Definition accepted (ss : list stmt) : list stmt :=
  List.filter (λ s, negb (rejects s)) ss.

(** The statements up to the first refused one, and that one. *)
Fixpoint until_rejected (ss : list stmt) : list stmt * option stmt :=
  match ss with
  | [] => ([], None)
  | s :: rest =>
      if rejects s then ([], Some s)
      else let r := until_rejected rest in (s :: r.1, r.2)
  end.

Definition extension_stmts : list stmt :=
  List.map (λ e, CreateExtension (ext_name e)) extension_list.

(** The statements [createIndexes] sends, in order. *)
Definition index_stmts (postgis : bool) : list stmt :=
  trigram_index :: spatial_indexes postgis ++ common_indexes
    ++ (if rejects trigram_index then [plain_name_index] else []).

(** The statements [createTriggers] sends when none is refused. *)
Definition trigger_stmts (postgis : bool) : list stmt :=
  (if postgis then
     [ update_village_centroid;
       RecreateTrigger "trg_update_village_centroid" "villages"
         "BEFORE INSERT OR UPDATE" "update_village_centroid" ]
   else
     [ update_village_centroid_simple;
       RecreateTrigger "trg_update_village_centroid_simple" "villages"
         "BEFORE INSERT OR UPDATE" "update_village_centroid_simple" ])
  ++ [ update_updated_at_column;
       updated_at_trigger "claimants";
       updated_at_trigger "micro_assets" ].

(** The probed flag. *)
Definition probed : bool := negb (rejects (CreateExtension "postgis")).

(** The statements of one [initializeSchema] that the store accepts. *)
Definition executed : list stmt :=
  accepted extension_stmts
  ++ (until_rejected (table_queries probed)).1
  ++ match (until_rejected (table_queries probed)).2 with
     | Some _ => []
     | None => accepted (index_stmts probed)
               ++ (until_rejected (trigger_stmts probed)).1
     end.

(** The statements of one [initializeSchema] that are sent. *)
Definition sent : list stmt :=
  extension_stmts
  ++ (until_rejected (table_queries probed)).1
  ++ match (until_rejected (table_queries probed)).2 with
     | Some s => [s]
     | None => index_stmts probed
               ++ (until_rejected (trigger_stmts probed)).1
               ++ match (until_rejected (trigger_stmts probed)).2 with
                  | Some s => [s]
                  | None => []
                  end
     end.

(** What one [initializeSchema] returns. *)
Definition outcome : result bool :=
  match (until_rejected (table_queries probed)).2 with
  | Some s => Err (QueryError s)
  | None =>
      match (until_rejected (trigger_stmts probed)).2 with
      | Some s => Err (QueryError s)
      | None => Ok true
      end
  end.

End Runs.

(** Every statement a run can send, for the given flag. *)
Definition universe (postgis : bool) : list stmt :=
  List.map (λ e, CreateExtension (ext_name e)) extension_list
  ++ table_queries postgis
  ++ trigram_index :: spatial_indexes postgis ++ common_indexes
  ++ [plain_name_index]
  ++ trigger_stmts postgis.

(** A store that has none of the four extensions, and one that has all. *)
Definition bare_store (s : stmt) : bool :=
  match s with
  | CreateExtension _ => true
  | CreateIndex i _ => String.eqb i "idx_villages_name_trgm"
  | _ => false
  end.

Definition full_store (s : stmt) : bool := false.

(** A store that refuses every index, and one that refuses the [villages]
    table. *)
Definition no_index_store (s : stmt) : bool :=
  match s with
  | CreateIndex _ _ => true
  | _ => false
  end.

Definition no_villages_store (s : stmt) : bool :=
  match s with
  | CreateTable t _ => String.eqb t "villages"
  | _ => false
  end.

(** Counts of a database in which [documents] is missing. *)
Definition documents_missing (table : string) : option N :=
  if String.eqb table "documents" then None else Some 3%N.

Definition empty_catalog : catalog := mkCatalog ∅ ∅ ∅ ∅ ∅.

Definition fresh_world : world := mkWorld false empty_catalog [].

End Schema.


(** ** Further notions about the import and the schema *)

Module ImportNotions.

Import Sql ImportVillages.

(** No row of the table is found by the dedupe query asked with the gid,
    name and district of a later row. *)
Definition no_duplicate_keys (rs : list Village.t) : Prop :=
  ForallOrdPairs
    (λ r r', holds (dedupe_where (Village.gid r') (Some (Village.name r'))
                      (Village.district r') r) = false)
    rs.

(** The feature has a [properties] object. *)
Definition well_formed (f : feature) : Prop := is_Some (properties f).

(** The row holds what the script extracts from the feature. *)
Definition row_of_feature (r : Village.t) (f : feature) : Prop :=
  ∃ p, properties f = Some p
       ∧ Village.properties r = p
       ∧ Village.boundary_geojson r = geometry f
       ∧ Village.gid r = Js.pg_text (vd_gid (extract p))
       ∧ Js.pg_text (vd_name (extract p)) = Some (Village.name r)
       ∧ Village.state r = Js.pg_text (vd_state (extract p))
       ∧ Village.district r = Js.pg_text (vd_district (extract p))
       ∧ Village.block r = Js.pg_text (vd_block (extract p)).

End ImportNotions.

Module SchemaNotions.

Import Schema.

(** The tables a run makes in a database that has none, by name. *)
Definition table_layouts (postgis : bool) : gmap string (list (string * string)) :=
  tables (apply_all (table_queries postgis) empty_catalog).

(** The names of the columns of a layout. *)
Definition column_names (cols : list (string * string)) : list string :=
  cols.*1.

(** The statement is not a CREATE TABLE. *)
Definition makes_no_table (s : stmt) : Prop :=
  match s with CreateTable _ _ => False | _ => True end.

(** The index a statement creates, if it creates one. *)
Definition index_name (s : stmt) : option string :=
  match s with CreateIndex i _ => Some i | _ => None end.

(** Whether table [t] of the layouts has a column named [col]. *)
Definition has_column (layouts : gmap string (list (string * string)))
    (t col : string) : bool :=
  match layouts !! t with
  | Some cols => bool_decide (col ∈ column_names cols)
  | None => false
  end.

End SchemaNotions.


(** ** SchemaManager.checkHealth and the entry points that call the manager *)

Module Health.

Import Schema.

(** The object [checkHealth] returns. *)
Inductive health :=
| Healthy (timestamp : string) (tables : gmap string stat)
| Unhealthy (error : string) (timestamp : string).

(** [checkHealth].  [ping] is what [SELECT 1] does: served, or thrown with
    a message;  [now] is the clock's ISO string. *)
Definition checkHealth (ping : option string)
    (count_rows : string → option N) (now : string) : health :=
  match ping with
  | None => Healthy now (getDatabaseStats count_rows)
  | Some message => Unhealthy message now
  end.

(** [initializeDatabase] of the server:  the connection test, then the
    schema;  any throw ends the process with code 1. *)
Definition server_initializeDatabase (rejects : stmt → bool)
    (connects : bool) (w : world) : option nat * world :=
  if connects then
    match initializeSchema rejects w with
    | (Ok _, w') => (None, w')
    | (Err _, w') => (Some 1, w')
    end
  else (Some 1, w).

(** [setupSchemaOnly]:  the exit code of the script and the world it
    leaves.  [closes] tells whether [dbManager.close()] returns. *)
Definition setupSchemaOnly (rejects : stmt → bool)
    (connects closes : bool) (w : world) : nat * world :=
  if connects then
    match initializeSchema rejects w with
    | (Ok _, w') => (if closes then 0 else 1, w')
    | (Err _, w') => (1, w')
    end
  else (1, w).

End Health.

(** ** The serverless entry point (api/index.js) *)

Module Serverless.

Import Schema Health.

(** What one request meets:  whether a connection test would pass, what
    [SELECT 1] and the count queries do, and the clock. *)
Record env := mkEnv {
  connects : bool;
  ping : option string;
  count_rows : string → option N;
  now : string
}.

(** The module variable [dbInitialized] and the number of connection tests
    made so far. *)
Record state := mkState {
  dbInitialized : bool;
  tests : nat
}.

(** [initializeDatabase]:  its result and the state it leaves. *)
Definition initializeDatabase (st : state) (e : env) : bool * state :=
  if dbInitialized st then (true, st)
  else if connects e
       then (true, {| dbInitialized := true; tests := tests st + 1 |})
       else (false, {| dbInitialized := dbInitialized st;
                       tests := tests st + 1 |}).

(** GET /api/health:  the status code and the body. *)
Definition health_endpoint (st : state) (e : env) : (nat * health) * state :=
  let r := initializeDatabase st e in
  if r.1 then ((200, checkHealth (ping e) (count_rows e) (now e)), r.2)
  else ((503, Unhealthy "Database connection failed" (now e)), r.2).

(** Requests served one after the other. *)
Fixpoint serve (st : state) (es : list env) : list (nat * health) * state :=
  match es with
  | [] => ([], st)
  | e :: rest =>
      let r := health_endpoint st e in
      let rs := serve r.2 rest in
      (r.1 :: rs.1, rs.2)
  end.

Definition cold : state := {| dbInitialized := false; tests := 0 |}.

End Serverless.

(** ** DatabaseManager (src/config/database.js) *)

Module DatabaseManager.

(** A [pg] pool:  which pool it is, and its [ended] flag. *)
Record pool := mkPool {
  pool_id : nat;
  ended : bool
}.

(** The manager's fields, and how many pools [new Pool] has made. *)
Record manager := mkManager {
  the_pool : option pool;
  isConnected : bool;
  pools_made : nat
}.

Definition new_manager : manager :=
  {| the_pool := None; isConnected := false; pools_made := 0 |}.

Definition createPool (m : manager) : manager :=
  match the_pool m with
  | Some _ => m
  | None =>
      {| the_pool := Some {| pool_id := pools_made m; ended := false |};
         isConnected := isConnected m;
         pools_made := pools_made m + 1 |}
  end.

(** [getPool], as [query], [testConnection] and [getClient] call it. *)
Definition getPool (m : manager) : manager :=
  match the_pool m with
  | Some _ => m
  | None => createPool m
  end.

(** [close]:  [pool.end()] ends the pool; on a pool already ended it throws
    and the assignment after it is not reached.  The field [pool] keeps
    the ended pool. *)
Definition close (m : manager) : manager :=
  match the_pool m with
  | None => m
  | Some p =>
      if ended p then m
      else {| the_pool := Some {| pool_id := pool_id p; ended := true |};
              isConnected := false;
              pools_made := pools_made m |}
  end.

(** The handlers of the pool's [connect] and [error] events. *)
Definition on_connect (m : manager) : manager :=
  {| the_pool := the_pool m; isConnected := true; pools_made := pools_made m |}.

Definition on_error (m : manager) : manager :=
  {| the_pool := the_pool m; isConnected := false; pools_made := pools_made m |}.

(** [isHealthy], as a truth value. *)
Definition isHealthy (m : manager) : bool :=
  isConnected m
  && match the_pool m with
     | Some p => negb (ended p)
     | None => false
     end.

(** What can happen to the manager. *)
Inductive op :=
| CreatePool
| GetPool
| Close
| EvConnect
| EvError.

Definition step (m : manager) (o : op) : manager :=
  match o with
  | CreatePool => createPool m
  | GetPool => getPool m
  | Close => close m
  | EvConnect => on_connect m
  | EvError => on_error m
  end.

Definition run (ops : list op) (m : manager) : manager :=
  fold_left step ops m.

End DatabaseManager.

(** ** POST /api/claims *)

Module Claimant.

(** A row of [claimants], fallback layout, without the generated uuid and
    the timestamps.  [area_ha] is kept as the text bound to its
    parameter. *)
Record t := mk {
  id : Z;
  name : string;
  claimant_type : option string;
  tribal_group : option string;
  village_id : option Z;
  area_ha : option string;
  status : option string;
  geometry_geojson : option string;
  properties : option string
}.

End Claimant.

Module ClaimsApi.

(** [req.body].  [geometry] is the text [JSON.stringify] yields for a truthy
    geometry, absent for a falsy one. *)
Record body := mkBody {
  name : Js.value;
  claimant_type : Js.value;
  tribal_group : Js.value;
  village_name : Js.value;
  area_ha : Js.value;
  geometry : option string;
  properties : Js.value
}.

Inductive response :=
| BadRequest (error : string)
| ServerError
| Created (claim : Claimant.t) (village_found : bool).

(** The two tables the handler touches, and the SERIAL sequence of
    [claimants.id]. *)
Record store := mkStore {
  villages : list Village.t;
  claimants : list Claimant.t;
  next_id : Z
}.

(** What the store does with the handler's statements. *)
Inductive fault := Served | LookupFails | InsertFails.

(** [['IFR', 'CR'].includes(claimant_type)]. *)
Definition valid_type (v : Js.value) : bool :=
  match v with
  | Js.Str s => String.eqb s "IFR" || String.eqb s "CR"
  | _ => false
  end.

Section Handler.

(** [text ILIKE pattern], as the store decides it. *)
Variable ilike : string → string → bool.

(** The rows [SELECT id FROM villages WHERE name ILIKE $1] ranges over. *)
Definition matching (st : store) (pattern : option string) : list Village.t :=
  match pattern with
  | Some p => List.filter (λ r, ilike (Village.name r) p) (villages st)
  | None => []
  end.

(** [LIMIT 1] without ORDER BY:  no row when none matches, else one of the
    matching rows, which one is the store's choice. *)
Definition limit_one (rows : list Village.t) (row : option Village.t) : Prop :=
  match row with
  | None => rows = []
  | Some r => r ∈ rows
  end.

(** The claimant row the INSERT makes. *)
Definition new_claim (st : store) (b : body) (n : string) (vid : option Z)
  : Claimant.t :=
  {| Claimant.id := next_id st;
     Claimant.name := n;
     Claimant.claimant_type := Js.pg_text (claimant_type b);
     Claimant.tribal_group := Js.pg_text (tribal_group b);
     Claimant.village_id := vid;
     Claimant.area_ha := Js.pg_text (area_ha b);
     Claimant.status := Some "pending"%string;
     Claimant.geometry_geojson := geometry b;
     Claimant.properties :=
       Js.pg_text (Js.or (properties b) (Js.Composite "{}")) |}.

(** The handler, given the row the village lookup returned. *)
Definition post_claim_with (row : option Village.t) (st : store) (b : body)
    (flt : fault) : response * store :=
  if negb (Js.truthy (name b)) || negb (Js.truthy (claimant_type b))
  then (BadRequest "name and claimant_type are required", st)
  else if negb (valid_type (claimant_type b))
  then (BadRequest "claimant_type must be IFR or CR", st)
  else
    let lookup :=
      if Js.truthy (village_name b)
      then match flt with
           | LookupFails => None
           | _ => Some (Village.id <$> row)
           end
      else Some None in
    match lookup with
    | None => (ServerError, st)
    | Some vid =>
        match flt, Js.pg_text (name b) with
        | InsertFails, _ | _, None => (ServerError, st)
        | _, Some n =>
            let c := new_claim st b n vid in
            (Created c (bool_decide (vid ≠ None)),
             {| villages := villages st;
                claimants := claimants st ++ [c];
                next_id := (next_id st + 1)%Z |})
        end
    end.

(** The handler. *)
Definition post_claim (st : store) (b : body) (flt : fault)
    (out : response * store) : Prop :=
  ∃ row, limit_one (matching st (Js.pg_text (village_name b))) row
         ∧ out = post_claim_with row st b flt.

End Handler.

(** ILIKE on patterns without wildcards and texts of one case. *)
Definition same_text (text pattern : string) : bool := String.eqb text pattern.

Definition sample_body (n t v : Js.value) : body :=
  {| name := n; claimant_type := t; tribal_group := Js.Undefined;
     village_name := v; area_ha := Js.Undefined; geometry := None;
     properties := Js.Undefined |}.

Definition sample_store : store :=
  {| villages := [ VillagesApi.sample_row 4 "Rampur" None None ];
     claimants := [];
     next_id := 1 |}.

End ClaimsApi.


(** * Properties *)

(** ** The bounding-box query *)

Module VillagesFacts.

Import Sql VillagesApi.

#[local] Instance name_le_trans : Transitive name_le.
Proof. intros a b c; unfold name_le; apply transitivity. Qed.

#[local] Instance name_le_total : Total name_le.
Proof. intros a b; unfold name_le; apply total, _. Qed.

Lemma eligible_elem tbl minLon minLat maxLon maxLat (r : Village.t) :
  r ∈ eligible tbl minLon minLat maxLon maxLat
  ↔ r ∈ tbl ∧ in_box minLon minLat maxLon maxLat r = true.
Proof.
  unfold eligible. rewrite !list_elem_of_In. apply filter_In.
Qed.

Lemma in_box_null minLon minLat maxLon maxLat (r : Village.t) :
  Village.centroid_lat r = None → Village.centroid_lon r = None →
  in_box minLon minLat maxLon maxLat r = true.
Proof.
  intros Hlat Hlon. unfold in_box, bbox_where. rewrite Hlat, Hlon. reflexivity.
Qed.

(** With both centroid columns set, the row is kept exactly when the
    latitude lies in [[minLat, maxLat]] and the longitude in
    [[minLon, maxLon]]. *)
Lemma in_box_centroid minLon minLat maxLon maxLat (r : Village.t) lat lon :
  Village.centroid_lat r = Some lat → Village.centroid_lon r = Some lon →
  (in_box minLon minLat maxLon maxLat r = true
   ↔ (minLat <= lat ∧ lat <= maxLat ∧ minLon <= lon ∧ lon <= maxLon)%Q).
Proof.
  intros Hlat Hlon. unfold in_box, bbox_where, between3, le3.
  rewrite Hlat, Hlon. cbn [is_null].
  rewrite <- !Qle_bool_iff.
  destruct (Qle_bool minLat lat), (Qle_bool lat maxLat),
    (Qle_bool minLon lon), (Qle_bool lon maxLon); cbn; intuition congruence.
Qed.


Lemma result_from_eligible tbl minLon minLat maxLon maxLat n res (r : Village.t) :
  queryByBoundingBox tbl minLon minLat maxLon maxLat n res →
  r ∈ res → r ∈ eligible tbl minLon minLat maxLon maxLat.
Proof.
  intros (sorted & [Hperm _] & ->) Hin.
  rewrite Hperm. by apply (subseteq_take n sorted).
Qed.

Lemma result_complete tbl minLon minLat maxLon maxLat n res (r : Village.t) :
  queryByBoundingBox tbl minLon minLat maxLon maxLat n res →
  length (eligible tbl minLon minLat maxLon maxLat) ≤ n →
  r ∈ eligible tbl minLon minLat maxLon maxLat → r ∈ res.
Proof.
  intros (sorted & [Hperm _] & ->) Hlen Hin.
  rewrite take_ge by (rewrite <- Hperm; lia). by rewrite <- Hperm.
Qed.



(** C1: in fallback mode a row whose [centroid_lat] and [centroid_lon] are
    both NULL passes the WHERE clause of the bounding-box query for every
    box, so it is in the eligible set; it is returned whenever the limit does
    not cut the eligible rows. *)
Theorem null_centroid_always_eligible
    (tbl : list Village.t) (r : Village.t) (minLon minLat maxLon maxLat : Q) :
  r ∈ tbl →
  Village.centroid_lat r = None →
  Village.centroid_lon r = None →
  r ∈ eligible tbl minLon minLat maxLon maxLat
  ∧ ∀ limit res,
      queryByBoundingBox tbl minLon minLat maxLon maxLat limit res →
      length (eligible tbl minLon minLat maxLon maxLat) ≤ limit →
      r ∈ res.
Proof.
  intros Hin Hlat Hlon.
  assert (He : r ∈ eligible tbl minLon minLat maxLon maxLat).
  { apply eligible_elem; split; [done|]. by apply in_box_null. }
  split; [done|]. intros limit res Hq Hlen.
  eapply result_complete; eauto.
Qed.

(** The witness of C1: a row without centroid, next to one far away, is
    returned for the box [[77,20,78,21]]. *)
Lemma null_centroid_always_eligible_witness :
  let r := sample_row 1 "Rampur" None None in
  let far := sample_row 2 "Bhubaneswar" (Some 20.2961%Q) (Some 85.8245%Q) in
  r ∈ eligible [far; r] 77 20 78 21
  ∧ ∀ limit res,
      queryByBoundingBox [far; r] 77 20 78 21 limit res →
      length (eligible [far; r] 77 20 78 21) ≤ limit → r ∈ res.
Proof.
  intros r far.
  apply (null_centroid_always_eligible [far; r] r 77 20 78 21);
    [ set_solver | reflexivity | reflexivity ].
Defined.

(** C5: for the box [[77,20,78,21]] the query drops a row whose centroid is
    (lat 20.2961, lon 85.8245) and keeps one whose centroid is
    (lat 20.5, lon 77.5); in general the latitude is tested against
    [minLat, maxLat] and the longitude against [minLon, maxLon]. *)
Theorem bbox_binds_lat_lon_in_order
    (tbl : list Village.t) (outside inside : Village.t) :
  centroid_is outside 20.2961 85.8245 →
  centroid_is inside 20.5 77.5 →
  in_box 77 20 78 21 outside = false
  ∧ in_box 77 20 78 21 inside = true
  ∧ (outside ∉ eligible tbl 77 20 78 21)
  ∧ (inside ∈ tbl → inside ∈ eligible tbl 77 20 78 21)
  ∧ (∀ n res, queryByBoundingBox tbl 77 20 78 21 n res → outside ∉ res)
  ∧ (∀ n res, queryByBoundingBox tbl 77 20 78 21 n res →
       length (eligible tbl 77 20 78 21) ≤ n → inside ∈ tbl → inside ∈ res)
  ∧ (∀ minLon minLat maxLon maxLat (r : Village.t) lat lon,
       Village.centroid_lat r = Some lat → Village.centroid_lon r = Some lon →
       (in_box minLon minLat maxLon maxLat r = true
        ↔ (minLat <= lat ∧ lat <= maxLat ∧ minLon <= lon ∧ lon <= maxLon)%Q)).
Proof.
  intros (a & b & Ha & Hb & Hae & Hbe) (c & d & Hc & Hd & Hce & Hde).
  assert (Hout : in_box 77 20 78 21 outside = false).
  { apply not_true_is_false. rewrite (in_box_centroid _ _ _ _ _ _ _ Ha Hb).
    rewrite Hae, Hbe. intros (_ & _ & _ & Hle). revert Hle. by compute. }
  assert (Hin : in_box 77 20 78 21 inside = true).
  { rewrite (in_box_centroid _ _ _ _ _ _ _ Hc Hd). rewrite Hce, Hde.
    repeat split; by compute. }
  assert (Hne : outside ∉ eligible tbl 77 20 78 21).
  { rewrite eligible_elem. intros [_ Ht]. congruence. }
  split_and!.
  - exact Hout.
  - exact Hin.
  - exact Hne.
  - intros Ht. by apply eligible_elem.
  - intros n res Hq Hr. apply Hne. eapply result_from_eligible; eauto.
  - intros n res Hq Hlen Ht. eapply result_complete; eauto.
    by apply eligible_elem.
  - intros. by apply in_box_centroid.
Qed.

(** The witness of C5: the two villages of the example, stored with the
    eight decimals of the NUMERIC columns. *)
Lemma bbox_binds_lat_lon_in_order_witness :
  let outside := sample_row 1 "Bhubaneswar" (Some 20.29610000%Q) (Some 85.82450000%Q) in
  let inside := sample_row 2 "Amravati" (Some 20.50000000%Q) (Some 77.50000000%Q) in
  in_box 77 20 78 21 outside = false
  ∧ in_box 77 20 78 21 inside = true
  ∧ run_query [outside; inside] 77 20 78 21 1000 = [inside].
Proof.
  intros outside inside.
  destruct (bbox_binds_lat_lon_in_order [outside; inside] outside inside)
    as (Hout & Hin & _).
  - exists 20.29610000%Q, 85.82450000%Q. split_and!; reflexivity.
  - exists 20.50000000%Q, 77.50000000%Q. split_and!; reflexivity.
  - split; [exact Hout|]. split; [exact Hin|]. reflexivity.
Defined.




End VillagesFacts.


(** ** The import loop *)

Module ImportFacts.

Import Sql ImportVillages.

Lemma truthy_pg_text v : Js.truthy v = true → is_Some (Js.pg_text v).
Proof. destruct v as [| |[]| | |]; cbn; intros; eauto; discriminate. Qed.

Lemma extracted_name_text p : is_Some (Js.pg_text (vd_name (extract p))).
Proof.
  cbn. unfold Js.or at 1.
  destruct (Js.truthy _) eqn:Ht; [by apply truthy_pg_text | by eexists].
Qed.

(** A feature that is not imported leaves the store as it was. *)
Lemma import_one_keeps db f flt db' o :
  import_one db f flt = (db', o) → o ≠ Imported → db' = db.
Proof.
  unfold import_one. intros H Ho.
  repeat (case_match; simplify_eq; try done).
Qed.

(** Rows are only ever appended, one per imported feature. *)
Lemma import_one_appends db f flt db' o :
  import_one db f flt = (db', o) →
  ∃ new, rows db' = rows db ++ new
         ∧ length new = (if o is Imported then 1 else 0).
Proof.
  intros H. destruct o.
  - unfold import_one, insert_village in H.
    repeat (case_match; simplify_eq; try done).
    cbn. by eexists [_].
  - apply import_one_keeps in H as ->; [|done]. exists []. by rewrite app_nil_r.
  - apply import_one_keeps in H as ->; [|done]. exists []. by rewrite app_nil_r.
Qed.

(** The loop can be cut where the errors have not yet passed the budget. *)
Lemma import_loop_app xs ys db c :
  errors (import_loop xs db c).2 ≤ 10 →
  import_loop (xs ++ ys) db c
  = import_loop ys (import_loop xs db c).1 (import_loop xs db c).2.
Proof.
  revert db c. induction xs as [|[f flt] xs IH]; intros db c Hle; [done|].
  cbn [import_loop app] in *.
  destruct (import_one db f flt) as [db' []]; try by apply IH.
  destruct (10 <? _) eqn:Hb; [|by apply IH].
  apply Nat.ltb_lt in Hb. cbn in Hle. cbn in Hb. lia.
Qed.

Lemma import_loop_errors_mono xs db c :
  errors c ≤ errors (import_loop xs db c).2.
Proof.
  revert db c. induction xs as [|[f flt] xs IH]; intros db c; [done|].
  cbn [import_loop].
  destruct (import_one db f flt) as [db' []].
  - etrans; [|apply IH]. done.
  - etrans; [|apply IH]. done.
  - destruct (10 <? _); [cbn; lia|]. etrans; [|apply IH]. cbn; lia.
Qed.

(** The error counter never passes 11. *)
Lemma import_loop_errors_bound xs db c :
  errors c ≤ 10 → errors (import_loop xs db c).2 ≤ 11.
Proof.
  revert db c. induction xs as [|[f flt] xs IH]; intros db c Hle; [cbn; lia|].
  cbn [import_loop].
  destruct (import_one db f flt) as [db' []]; try by apply IH.
  destruct (10 <? _) eqn:Hb; [cbn; lia|].
  apply IH. apply Nat.ltb_ge in Hb. done.
Qed.

(** While the budget holds every feature is counted once. *)
Lemma import_loop_counts xs db c :
  errors (import_loop xs db c).2 ≤ 10 →
  imported (import_loop xs db c).2 + skipped (import_loop xs db c).2
    + errors (import_loop xs db c).2
  = imported c + skipped c + errors c + length xs.
Proof.
  revert db c. induction xs as [|[f flt] xs IH]; intros db c Hle; [cbn; lia|].
  cbn [import_loop] in *.
  destruct (import_one db f flt) as [db' []].
  - rewrite IH by done. cbn. lia.
  - rewrite IH by done. cbn. lia.
  - destruct (10 <? _) eqn:Hb.
    + apply Nat.ltb_lt in Hb. cbn in *. lia.
    + rewrite IH by done. cbn. lia.
Qed.

(** Whatever happens, the rows present before the run are still there,
    followed by one new row per imported feature. *)
Lemma import_loop_appends xs db c :
  ∃ new, rows (import_loop xs db c).1 = rows db ++ new
         ∧ imported (import_loop xs db c).2 = imported c + length new.
Proof.
  revert db c. induction xs as [|[f flt] xs IH]; intros db c.
  { exists []. cbn. rewrite app_nil_r. split; [done|lia]. }
  cbn [import_loop].
  destruct (import_one db f flt) as [db' o] eqn:Hone.
  destruct (import_one_appends _ _ _ _ _ Hone) as (new1 & Hrows & Hlen).
  destruct o.
  - edestruct IH as (new & -> & ->). exists (new1 ++ new).
    rewrite Hrows, <- app_assoc, length_app. cbn. split; [done|lia].
  - edestruct IH as (new & -> & ->). exists (new1 ++ new).
    rewrite Hrows, <- app_assoc, length_app. cbn. split; [done|lia].
  - destruct new1; [|done]. rewrite app_nil_r in Hrows.
    destruct (10 <? _).
    + exists []. cbn. rewrite app_nil_r. split; [done|lia].
    + edestruct IH as (new & -> & ->). exists new. rewrite Hrows. cbn.
      split; [done|lia].
Qed.

(** The script never supplies a centroid: every row a run adds has both
    centroid columns NULL, and so passes the bounding-box filter of
    [/api/villages] for every box. *)
Lemma imported_rows_lack_centroid xs db c :
  ∃ new, rows (import_loop xs db c).1 = rows db ++ new
         ∧ Forall lacks_centroid new.
Proof.
  revert db c. induction xs as [|[f flt] xs IH]; intros db c.
  { exists []. cbn. by rewrite app_nil_r. }
  cbn [import_loop].
  destruct (import_one db f flt) as [db' o] eqn:Hone.
  assert (Hstep : ∃ new, rows db' = rows db ++ new ∧ Forall lacks_centroid new).
  { unfold import_one, insert_village in Hone.
    repeat (case_match; simplify_eq; try (exists []; by rewrite app_nil_r)).
    eexists [_]. split; [done|]. by repeat constructor. }
  destruct Hstep as (new1 & Hrows & Hnew1).
  assert (Hrest : ∀ c', ∃ new, rows (import_loop xs db' c').1 = rows db ++ new
                               ∧ Forall lacks_centroid new).
  { intros c'. destruct (IH db' c') as (new & -> & Hnew).
    exists (new1 ++ new). rewrite Hrows, <- app_assoc.
    split; [done|]. by apply Forall_app. }
  destruct o; try apply Hrest.
  destruct (10 <? _); [|apply Hrest]. by exists new1.
Qed.

Lemma imported_rows_always_eligible xs db (r : Village.t)
    (minLon minLat maxLon maxLat : Q) :
  r ∈ rows (importVillages xs db).1 → r ∉ rows db →
  r ∈ VillagesApi.eligible (rows (importVillages xs db).1)
        minLon minLat maxLon maxLat.
Proof.
  unfold importVillages. cbn [fst]. intros Hin Hold.
  destruct (imported_rows_lack_centroid xs db
              {| imported := 0; skipped := 0; errors := 0 |})
    as (new & Hrows & Hnew).
  apply VillagesFacts.eligible_elem. split; [done|].
  rewrite Hrows in Hin. apply elem_of_app in Hin as [Hin|Hin]; [done|].
  rewrite Forall_forall in Hnew. destruct (Hnew r Hin).
  by apply VillagesFacts.in_box_null.
Qed.

(** A run of failing features only moves the error counter, and stops the
    loop when the counter reaches 11. *)
Lemma import_loop_failing bad rest db c :
  Forall (fails db) bad →
  errors c + length bad ≤ 11 →
  import_loop (bad ++ rest) db c
  = if decide (errors c + length bad = 11 ∧ bad ≠ [])
    then (db, {| imported := imported c; skipped := skipped c; errors := 11 |})
    else import_loop rest db
           {| imported := imported c; skipped := skipped c;
              errors := errors c + length bad |}.
Proof.
  revert c. induction bad as [|[f flt] bad IH]; intros c Hbad Hle.
  { cbn. rewrite decide_False by (intros [_ Hne]; by apply Hne).
    destruct c; cbn. by rewrite Nat.add_0_r. }
  apply Forall_cons in Hbad as [Hf Hbad]. unfold fails in Hf. cbn in Hf, Hle.
  cbn [import_loop app].
  destruct (import_one db f flt) as [db' o] eqn:Hone. cbn in Hf. subst o.
  apply import_one_keeps in Hone as ->; [|done].
  cbn [errors]. destruct (10 <? errors c + 1) eqn:Hb.
  - apply Nat.ltb_lt in Hb. assert (bad = []) as -> by (destruct bad; cbn in *; [done|lia]).
    cbn in *. rewrite decide_True by (split; [lia|done]).
    f_equal. f_equal. lia.
  - apply Nat.ltb_ge in Hb. rewrite IH; [|done|cbn; lia]. cbn.
    destruct (decide (errors c + 1 + length bad = 11 ∧ bad ≠ [])) as [[H1 H2]|Hn].
    + rewrite decide_True by (split; [lia|done]). done.
    + destruct (decide (errors c + S (length bad) = 11 ∧ _)) as [[H1 _]|_].
      * destruct bad; [cbn in *; lia|]. exfalso. apply Hn. split; [lia|done].
      * do 2 f_equal. lia.
Qed.



(** More generally the loop stops at the eleventh error of the run, whether
    or not the errors come in a row. *)
Lemma eleventh_error_halts_import
    (pre bad rest : list (feature * fault)) (db : store) :
  let start := import_loop pre db no_counts in
  bad ≠ [] →
  errors start.2 + length bad = 11 →
  Forall (fails start.1) bad →
  import_loop (pre ++ bad ++ rest) db no_counts
  = (start.1, {| imported := imported start.2; skipped := skipped start.2;
                 errors := 11 |}).
Proof.
  intros start Hne Hlen Hbad.
  rewrite import_loop_app by (fold start; destruct bad; cbn in *; [done|lia]).
  fold start. rewrite import_loop_failing; [|done|lia].
  by rewrite decide_True.
Qed.

(** *** The dedupe query *)

(** The dedupe condition is TRUE on a row exactly when the row carries the
    same non-NULL gid, or the same name together with the same non-NULL
    district. *)
Lemma dedupe_where_true (p1 p2 p3 : option string) (r : Village.t) :
  holds (dedupe_where p1 p2 p3 r) = true
  ↔ (∃ g, Village.gid r = Some g ∧ p1 = Some g)
    ∨ (p2 = Some (Village.name r)
       ∧ ∃ d, Village.district r = Some d ∧ p3 = Some d).
Proof.
  unfold dedupe_where, eq3.
  destruct (Village.gid r) as [g|], p1 as [g'|], p2 as [n'|],
    (Village.district r) as [d|], p3 as [d'|]; cbn;
    repeat match goal with
      | |- context [String.eqb ?a ?b] => destruct (String.eqb_spec a b); subst
      end; cbn; split; try done;
    try (intros _; first [ left; by eexists | right; split; [done|by eexists] ]);
    intros [(? & ? & ?)|(? & ? & ? & ?)]; congruence.
Qed.

(** Compared with a NULL gid and a NULL district the condition is never
    TRUE, whatever the row. *)
Lemma dedupe_where_null (p2 : option string) (r : Village.t) :
  holds (dedupe_where None p2 None r) = false.
Proof.
  apply not_true_is_false. rewrite dedupe_where_true.
  intros [(? & _ & ?)|(_ & ? & _ & ?)]; discriminate.
Qed.

Lemma select_existing_app db vd extra nid :
  select_existing {| rows := rows db ++ extra; next_id := nid |} vd
  = select_existing db vd
      ++ select_existing {| rows := extra; next_id := nid |} vd.
Proof. unfold select_existing. cbn. apply List.filter_app. Qed.

Lemma select_existing_mono db db' vd extra :
  rows db' = rows db ++ extra →
  select_existing db vd ≠ [] → select_existing db' vd ≠ [].
Proof.
  unfold select_existing. intros -> Hne. rewrite List.filter_app.
  destruct (List.filter _ (rows db)); [done|]. done.
Qed.

(** With the store serving its statements, a feature is skipped exactly
    when the dedupe query finds a row. *)
Lemma import_one_skips db f p flt :
  properties f = Some p → flt ≠ SelectFails →
  import_one db f flt = (db, Skipped) ↔ select_existing db (extract p) ≠ [].
Proof.
  intros Hp Hflt. unfold import_one. rewrite Hp.
  destruct (select_existing db (extract p)) as [|r l] eqn:Hsel; cbn.
  - destruct flt; try done; split; try done.
    all: destruct (insert_village _ _ _); intros [=]; done.
  - destruct flt; done.
Qed.

(** C10: when the extracted gid and the extracted district are both NULL,
    the dedupe condition is TRUE on no row, so each run of the import over
    the feature appends one more row with the same columns: [k] runs leave
    [k] more rows. *)
Theorem unkeyed_feature_duplicates_every_run
    (f : feature) (p : gmap string Js.value) :
  properties f = Some p →
  Js.pg_text (vd_gid (extract p)) = None →
  Js.pg_text (vd_district (extract p)) = None →
  (∀ r : Village.t,
     holds (dedupe_where (Js.pg_text (vd_gid (extract p)))
              (Js.pg_text (vd_name (extract p)))
              (Js.pg_text (vd_district (extract p))) r) = false)
  ∧ (∀ db, select_existing db (extract p) = [])
  ∧ (∀ db, ∃ row,
       importVillages (served [f]) db
       = ({| rows := rows db ++ [row]; next_id := (next_id db + 1)%Z |},
          {| s_imported := 1; s_skipped := 0; s_errors := 0;
             s_total := length (rows db) + 1 |})
       ∧ Village.gid row = None
       ∧ Js.pg_text (vd_name (extract p)) = Some (Village.name row)
       ∧ Village.district row = None
       ∧ Village.properties row = p)
  ∧ (∀ k db, length (rows (rerun [f] k db)) = length (rows db) + k).
Proof.
  intros Hp Hgid Hdis.
  assert (Hnone : ∀ r : Village.t,
            holds (dedupe_where (Js.pg_text (vd_gid (extract p)))
                     (Js.pg_text (vd_name (extract p)))
                     (Js.pg_text (vd_district (extract p))) r) = false).
  { intros r. rewrite Hgid, Hdis. apply dedupe_where_null. }
  assert (Hsel : ∀ db, select_existing db (extract p) = []).
  { intros db. unfold select_existing. induction (rows db) as [|r l IH]; [done|].
    cbn [List.filter]. by rewrite Hnone. }
  assert (Hrun : ∀ db, ∃ row,
       importVillages (served [f]) db
       = ({| rows := rows db ++ [row]; next_id := (next_id db + 1)%Z |},
          {| s_imported := 1; s_skipped := 0; s_errors := 0;
             s_total := length (rows db) + 1 |})
       ∧ Village.gid row = None
       ∧ Js.pg_text (vd_name (extract p)) = Some (Village.name row)
       ∧ Village.district row = None
       ∧ Village.properties row = p).
  { intros db. destruct (extracted_name_text p) as [n Hn].
    exists (new_row (next_id db) (extract p) n (geometry f)). split.
    - unfold importVillages, served. cbn [List.map import_loop].
      unfold import_one. rewrite Hp, Hsel. cbn [length Nat.ltb Nat.leb].
      unfold insert_village. rewrite Hn. cbn.
      rewrite length_app. cbn. reflexivity.
    - unfold new_row.
      cbn [Village.gid Village.name Village.district Village.properties].
      rewrite Hgid, Hdis. done. }
  split_and!; try done.
  intros k db. induction k as [|k IH]; [cbn; lia|].
  change (rerun [f] (S k) db)
    with ((importVillages (served [f]) (rerun [f] k db)).1).
  destruct (Hrun (rerun [f] k db)) as (row & -> & _).
  cbn. rewrite length_app, IH. cbn. lia.
Qed.

(** The witness of C10: a feature with a name only, imported three times
    into an empty table. *)
Lemma unkeyed_feature_duplicates_every_run_witness :
  let f := sample_feature [("name"%string, Js.Str "Rampur")] in
  length (rows (rerun [f] 3 empty_store)) = 3.
Proof.
  intros f.
  destruct (unkeyed_feature_duplicates_every_run f
              (list_to_map [("name"%string, Js.Str "Rampur")]))
    as (_ & _ & _ & H).
  - reflexivity.
  - reflexivity.
  - reflexivity.
  - apply (H 3 empty_store).
Defined.

(** *** Running the import twice *)

(** Served by the store, a keyed feature is imported or skipped, and
    afterwards the dedupe query finds a row for it. *)
Lemma import_one_served_covers db f p :
  properties f = Some p → keyed f →
  ∃ db' o, import_one db f NoFault = (db', o)
           ∧ o ≠ Errored
           ∧ (∃ extra, rows db' = rows db ++ extra)
           ∧ select_existing db' (extract p) ≠ [].
Proof.
  intros Hp Hkey. unfold import_one. rewrite Hp.
  destruct (select_existing db (extract p)) as [|r l] eqn:Hsel;
    cbn [length Nat.ltb Nat.leb].
  - destruct (extracted_name_text p) as [n Hn].
    unfold insert_village. rewrite Hn.
    eexists _, Imported. split; [done|]. split; [done|].
    split; [by eexists|].
    rewrite select_existing_app, Hsel. cbn [app].
    assert (Hrow : holds (dedupe_where (Js.pg_text (vd_gid (extract p)))
                            (Js.pg_text (vd_name (extract p)))
                            (Js.pg_text (vd_district (extract p)))
                            (new_row (next_id db) (extract p) n (geometry f)))
                   = true).
    { apply dedupe_where_true. unfold new_row.
      cbn [Village.gid Village.name Village.district].
      destruct (Hkey p Hp) as [Hg|Hd].
      - left. destruct (Js.pg_text (vd_gid (extract p))); [by eexists|done].
      - right. split; [done|].
        destruct (Js.pg_text (vd_district (extract p))); [by eexists|done]. }
    unfold select_existing. cbn [rows List.filter]. by rewrite Hrow.
  - eexists _, Skipped. split; [done|]. split; [done|].
    split; [exists []; by rewrite app_nil_r|]. by rewrite Hsel.
Qed.

(** A second pass over features that a first pass has been through, on a
    store holding at least the rows the first pass left, imports nothing and
    meets the same errors. *)
Lemma second_pass_imports_nothing fs :
  Forall keyed fs →
  ∀ db c db2 c2,
    (∃ extra, rows db2 = rows (import_loop (served fs) db c).1 ++ extra) →
    errors c2 = errors c →
    (import_loop (served fs) db2 c2).1 = db2
    ∧ imported (import_loop (served fs) db2 c2).2 = imported c2
    ∧ errors (import_loop (served fs) db2 c2).2
      = errors (import_loop (served fs) db c).2.
Proof.
  induction 1 as [|f fs Hkey Hall IH]; intros db c db2 c2 Hext Herr; [done|].
  cbn [served List.map import_loop] in *. fold (served fs) in *.
  destruct (properties f) as [p|] eqn:Hp.
  - destruct (import_one_served_covers db f p Hp Hkey)
      as (db' & o & Hone & Ho & [ex1 Hex1] & Hcov).
    rewrite Hone in *.
    assert (Hskip : import_one db2 f NoFault = (db2, Skipped)).
    { apply (import_one_skips db2 f p NoFault Hp); [done|].
      destruct Hext as [extra Hrows].
      destruct o; try done.
      - destruct (import_loop_appends (served fs) db'
                    {| imported := imported c + 1; skipped := skipped c;
                       errors := errors c |}) as (new & Hn & _).
        rewrite Hn, <- app_assoc in Hrows.
        eapply select_existing_mono; eauto.
      - destruct (import_loop_appends (served fs) db'
                    {| imported := imported c; skipped := skipped c + 1;
                       errors := errors c |}) as (new & Hn & _).
        rewrite Hn, <- app_assoc in Hrows.
        eapply select_existing_mono; eauto. }
    rewrite Hskip.
    destruct o; try done.
    + edestruct (IH db' {| imported := imported c + 1; skipped := skipped c;
                           errors := errors c |} db2
                   {| imported := imported c2; skipped := skipped c2 + 1;
                      errors := errors c2 |}) as (H1 & H2 & H3); eauto.
    + edestruct (IH db' {| imported := imported c; skipped := skipped c + 1;
                           errors := errors c |} db2
                   {| imported := imported c2; skipped := skipped c2 + 1;
                      errors := errors c2 |}) as (H1 & H2 & H3); eauto.
  - assert (Hone : ∀ d, import_one d f NoFault = (d, Errored)).
    { intros d. unfold import_one. by rewrite Hp. }
    rewrite !Hone in *. cbn [errors] in *. rewrite Herr.
    destruct (10 <? errors c + 1); [done|].
    destruct (IH db {| imported := imported c; skipped := skipped c;
                       errors := errors c + 1 |} db2
                {| imported := imported c2; skipped := skipped c2;
                   errors := errors c + 1 |}) as (H1 & H2 & H3); done.
Qed.

(** The counterexample to C3 as stated: a dataset of one feature whose
    stable external id is the number 0 and which names no district.  The
    first run imports it, and so does the second. *)
Lemma second_run_duplicates_gid_zero :
  let f := sample_feature [("gid"%string, Js.Num 0);
                           ("name"%string, Js.Str "Rampur")] in
  let first := importVillages (served [f]) empty_store in
  let second := importVillages (served [f]) first.1 in
  s_imported first.2 = 1 ∧ s_total first.2 = 1
  ∧ s_imported second.2 = 1 ∧ s_total second.2 = 2
  ∧ Village.gid <$> rows second.1 = [None; None].
Proof. intros f first second. split_and!; reflexivity. Qed.

(** C3, amended: when every feature yields a non-NULL gid or a non-NULL
    district (a falsy value such as 0 or the empty string is extracted as
    NULL) and the store serves every statement, a second run over the same
    features leaves the store as the first run left it and imports nothing.
    A feature is skipped exactly when some row carries its gid, or its name
    together with its district; and no run changes or removes a row that was
    there before it. *)
Theorem second_run_imports_nothing (fs : list feature) (db : store) :
  Forall keyed fs →
  let first := importVillages (served fs) db in
  let second := importVillages (served fs) first.1 in
  second.1 = first.1
  ∧ s_imported second.2 = 0
  ∧ s_errors second.2 = s_errors first.2
  ∧ s_total second.2 = s_total first.2
  ∧ (∀ d f p flt, properties f = Some p → flt ≠ SelectFails →
       (import_one d f flt = (d, Skipped)
        ↔ ∃ r, r ∈ rows d
               ∧ ((∃ g, Village.gid r = Some g
                        ∧ Js.pg_text (vd_gid (extract p)) = Some g)
                  ∨ (Js.pg_text (vd_name (extract p)) = Some (Village.name r)
                     ∧ ∃ t, Village.district r = Some t
                            ∧ Js.pg_text (vd_district (extract p)) = Some t))))
  ∧ (∀ gs d, ∃ new,
       rows (importVillages gs d).1 = rows d ++ new
       ∧ length new = s_imported (importVillages gs d).2).
Proof.
  intros Hkey first second.
  destruct (second_pass_imports_nothing fs Hkey db no_counts
              (import_loop (served fs) db no_counts).1 no_counts)
    as (H1 & H2 & H3); [exists []; by rewrite app_nil_r|done|].
  assert (Hdb : second.1 = first.1) by exact H1.
  split_and!.
  - exact Hdb.
  - exact H2.
  - exact H3.
  - unfold second, first, importVillages in *. cbn in *. fold no_counts.
    by rewrite H1.
  - intros d f p flt Hp Hflt. rewrite (import_one_skips d f p flt Hp Hflt).
    unfold select_existing. split.
    + intros Hne. destruct (List.filter _ (rows d)) as [|r l] eqn:Hf; [done|].
      assert (Hin : In r (List.filter
                (λ r, holds (dedupe_where (Js.pg_text (vd_gid (extract p)))
                               (Js.pg_text (vd_name (extract p)))
                               (Js.pg_text (vd_district (extract p))) r))
                (rows d))) by (rewrite Hf; by left).
      apply filter_In in Hin as [Hin Hr]. exists r.
      split; [by apply list_elem_of_In|]. by apply dedupe_where_true.
    + intros (r & Hin & Hr). apply dedupe_where_true in Hr.
      apply list_elem_of_In in Hin.
      intros Hnil.
      assert (Hin' : In r (List.filter
                (λ r, holds (dedupe_where (Js.pg_text (vd_gid (extract p)))
                               (Js.pg_text (vd_name (extract p)))
                               (Js.pg_text (vd_district (extract p))) r))
                (rows d))) by (apply filter_In; by split).
      rewrite Hnil in Hin'. done.
  - intros gs d. destruct (import_loop_appends gs d no_counts) as (new & Hr & Hi).
    exists new. unfold importVillages. cbn. fold no_counts.
    split; [done|]. rewrite Hi. cbn. lia.
Qed.

(** The witness of C3: two features, one keyed by gid, one by district,
    the second listed twice. *)
Lemma second_run_imports_nothing_witness :
  let a := sample_feature [("gid"%string, Js.Num 7);
                           ("name"%string, Js.Str "Rampur")] in
  let b := sample_feature [("NAME"%string, Js.Str "Sonpur");
                           ("DISTRICT"%string, Js.Str "Puri")] in
  let first := importVillages (served [a; b; b]) empty_store in
  let second := importVillages (served [a; b; b]) first.1 in
  second.1 = first.1 ∧ s_imported second.2 = 0 ∧ s_imported first.2 = 2.
Proof.
  intros a b first second.
  destruct (second_run_imports_nothing [a; b; b] empty_store)
    as (H1 & H2 & _).
  - assert (Ha : keyed a) by (intros p [= <-]; left; vm_compute; done).
    assert (Hb : keyed b) by (intros p [= <-]; right; vm_compute; done).
    by repeat apply Forall_cons_2.
  - split; [exact H1|]. split; [exact H2|]. reflexivity.
Defined.

End ImportFacts.


(** ** The schema manager *)

Module SchemaFacts.

Import Schema.

Section WithStore.

Variable rejects : stmt → bool.

Lemma apply_all_app ss ts c :
  apply_all (ss ++ ts) c = apply_all ts (apply_all ss c).
Proof. apply fold_left_app. Qed.

Lemma accepted_app ss ts :
  accepted rejects (ss ++ ts) = accepted rejects ss ++ accepted rejects ts.
Proof. apply List.filter_app. Qed.

(** A propagating loop of queries runs up to the first refused statement. *)
Lemma for_each_query ss w :
  for_each ss (query rejects) w
  = (match (until_rejected rejects ss).2 with
     | Some s => Err (QueryError s)
     | None => Ok tt
     end,
     mkWorld (postgisAvailable w)
       (apply_all (until_rejected rejects ss).1 (cat w))
       (issued w ++ (until_rejected rejects ss).1
          ++ match (until_rejected rejects ss).2 with
             | Some s => [s]
             | None => []
             end)).
Proof.
  revert w. induction ss as [|s ss IH]; intros w.
  { cbn. unfold ret. destruct w; cbn. by rewrite app_nil_r. }
  cbn [for_each until_rejected]. unfold bind at 1. unfold query at 1.
  destruct (rejects s) eqn:Hs; [done|].
  rewrite IH. cbn. by rewrite <- app_assoc.
Qed.

(** The loop over the index entries sends every statement and never throws. *)
Lemma for_each_entries es w :
  for_each es (create_index_entry rejects) w
  = (Ok tt,
     mkWorld (postgisAvailable w)
       (apply_all (accepted rejects (entry_stmts es)) (cat w))
       (issued w ++ entry_stmts es)).
Proof.
  revert w. induction es as [|[s|t] es IH]; intros w.
  - cbn. unfold ret. destruct w; cbn. by rewrite app_nil_r.
  - cbn [for_each]. unfold bind at 1. cbn [create_index_entry].
    unfold try_catch, query.
    destruct (rejects s) eqn:Hs; unfold ret; rewrite IH; cbn;
      rewrite Hs; cbn; by rewrite <- app_assoc.
  - cbn [for_each]. unfold bind at 1. cbn [create_index_entry]. unfold ret.
    by rewrite IH.
Qed.

Lemma entry_stmts_statements ss :
  entry_stmts (List.map Statement ss) = ss.
Proof. induction ss as [|s ss IH]; [done|]. cbn. by f_equal. Qed.

Lemma entry_stmts_app es fs :
  entry_stmts (es ++ fs) = entry_stmts es ++ entry_stmts fs.
Proof. apply omap_app. Qed.

Lemma enableExtensions_run w :
  enableExtensions rejects w
  = (Ok tt,
     mkWorld (probed rejects)
       (apply_all (accepted rejects extension_stmts) (cat w))
       (issued w ++ extension_stmts)).
Proof.
  unfold enableExtensions, extension_list, enable_loop, probed, bind,
    try_catch, query, set_postgis, ret, extension_stmts, extension_list.
  cbn. destruct w as [p c i]; cbn.
  destruct (rejects (CreateExtension "pg_trgm")),
    (rejects (CreateExtension "btree_gist")),
    (rejects (CreateExtension "postgis")),
    (rejects (CreateExtension "postgis_topology")); cbn;
    by rewrite <- !app_assoc.
Qed.

Lemma createTables_run w :
  createTables rejects w
  = for_each (table_queries (postgisAvailable w)) (query rejects) w.
Proof. done. Qed.

Lemma createIndexes_run w :
  createIndexes rejects w
  = (Ok tt,
     mkWorld (postgisAvailable w)
       (apply_all (accepted rejects (index_stmts rejects (postgisAvailable w)))
          (cat w))
       (issued w ++ index_stmts rejects (postgisAvailable w))).
Proof.
  unfold createIndexes, index_stmts, get_postgis. unfold bind at 1.
  unfold bind at 1. unfold try_catch, bind, query.
  destruct (rejects trigram_index) eqn:Ht; unfold ret;
    rewrite for_each_entries;
    rewrite entry_stmts_app, entry_stmts_statements; cbn [entry_stmts omap app];
    cbn [postgisAvailable cat issued]; unfold accepted; cbn [List.filter];
    rewrite Ht; cbn [negb]; rewrite ?app_nil_r, <- ?app_assoc; done.
Qed.

Lemma createTriggers_run w :
  createTriggers rejects w
  = for_each (trigger_stmts (postgisAvailable w)) (query rejects) w.
Proof.
  unfold createTriggers, trigger_stmts, get_postgis. unfold bind at 1.
  destruct (postgisAvailable w); cbn [for_each app]; unfold bind;
    repeat match goal with
      | |- context [query rejects ?s ?w] => destruct (query rejects s w) as [[[]|?] ?]
      end; done.
Qed.

(** One [initializeSchema], in closed form:  what it returns, the flag it
    leaves, the statements that took effect and the statements sent depend
    on the store's verdicts only. *)
Lemma initializeSchema_run w :
  initializeSchema rejects w
  = (outcome rejects,
     mkWorld (probed rejects) (apply_all (executed rejects) (cat w))
       (issued w ++ sent rejects)).
Proof.
  unfold initializeSchema, try_catch. unfold bind at 1.
  rewrite enableExtensions_run. unfold bind at 1.
  rewrite createTables_run, for_each_query. cbn [postgisAvailable cat issued].
  unfold outcome, executed, sent.
  destruct (until_rejected rejects (table_queries (probed rejects)))
    as [tpre [t|]]; cbn [fst snd].
  { unfold throw. rewrite app_nil_r, apply_all_app, <- !app_assoc. done. }
  unfold bind at 1. rewrite createIndexes_run. cbn [postgisAvailable cat issued].
  unfold bind at 1. rewrite createTriggers_run, for_each_query.
  cbn [postgisAvailable cat issued].
  destruct (until_rejected rejects (trigger_stmts (probed rejects)))
    as [gpre [g|]]; cbn [fst snd]; unfold throw, ret;
    rewrite !apply_all_app, <- !app_assoc; done.
Qed.

End WithStore.

(** *** Settled statements *)

Lemma create_if_absent_settled {V} (k : string) (v : V) (m : gmap string V) :
  create_if_absent k v m = m ↔ is_Some (m !! k).
Proof.
  unfold create_if_absent. destruct (m !! k) eqn:Hk; split; eauto.
  - intros Heq. rewrite <- Heq, lookup_insert_eq in Hk. done.
  - by intros [? ?].
Qed.

Lemma create_if_absent_lookup {V} (k k' : string) (v : V) (m : gmap string V) :
  is_Some (m !! k') → is_Some (create_if_absent k v m !! k').
Proof.
  unfold create_if_absent. intros Hs. destruct (m !! k) eqn:Hk; [done|].
  destruct (decide (k = k')) as [->|Hne].
  - rewrite lookup_insert_eq. eauto.
  - by rewrite lookup_insert_ne.
Qed.

Lemma insert_settled `{Countable K} {V} (k : K) (v : V) (m : gmap K V) :
  <[k := v]> m = m ↔ m !! k = Some v.
Proof.
  split; [|apply insert_id].
  intros Heq. rewrite <- Heq. apply lookup_insert_eq.
Qed.

Lemma create_if_absent_idem {V} (k : string) (v : V) (m : gmap string V) :
  create_if_absent k v (create_if_absent k v m) = create_if_absent k v m.
Proof.
  apply create_if_absent_settled. unfold create_if_absent.
  destruct (m !! k) eqn:Hk; [by rewrite Hk|]. rewrite lookup_insert_eq. eauto.
Qed.

(** An accepted statement is settled once it has run. *)
Lemma apply_settles s c : settled s (apply s c).
Proof.
  unfold settled. destruct s, c; cbn; f_equal.
  - by rewrite (assoc_L (∪)), (idemp_L (∪)).
  - apply create_if_absent_idem.
  - apply create_if_absent_idem.
  - apply insert_insert_eq.
  - rewrite !insert_delete_eq. apply insert_insert_eq.
Qed.

(** A settled statement stays settled when a statement that does not
    conflict with it runs. *)
Lemma settled_preserved s s' c :
  conflict s s' = false → settled s c → settled s (apply s' c).
Proof.
  unfold settled. intros Hc Hs.
  destruct c as [ex tb ix fn tg].
  destruct s; cbn in Hs; injection Hs as Hs; destruct s'; cbn; f_equal;
    try done; cbn in Hc.
  - by rewrite (assoc_L (∪)), (comm_L (∪) {[ext]}), <- (assoc_L (∪)), Hs.
  - apply create_if_absent_settled, create_if_absent_lookup.
    by apply create_if_absent_settled in Hs.
  - apply create_if_absent_settled, create_if_absent_lookup.
    by apply create_if_absent_settled in Hs.
  - apply insert_settled. apply insert_settled in Hs.
    destruct (decide (fn1 = fn0)) as [->|Hne].
    + rewrite bool_decide_true in Hc by done. cbn in Hc.
      apply negb_false_iff, bool_decide_eq_true in Hc as ->.
      apply lookup_insert_eq.
    + by rewrite lookup_insert_ne.
  - rewrite !insert_delete_eq in *.
    apply insert_settled. apply insert_settled in Hs.
    destruct (decide ((tbl0, trg0) = (tbl, trg))) as [Heq|Hne].
    + rewrite Heq. rewrite bool_decide_true in Hc by (by symmetry). cbn in Hc.
      apply negb_false_iff, bool_decide_eq_true in Hc. rewrite Hc.
      apply lookup_insert_eq.
    + by rewrite lookup_insert_ne.
Qed.

Lemma settled_preserved_all s ss c :
  (∀ s', s' ∈ ss → conflict s s' = false) →
  settled s c → settled s (apply_all ss c).
Proof.
  revert c. induction ss as [|s' ss IH]; intros c Hall Hs; [done|].
  cbn. apply IH.
  - intros t Ht. apply Hall. by right.
  - apply settled_preserved; [|done]. apply Hall. by left.
Qed.

Lemma apply_all_settled ss c :
  (∀ s, s ∈ ss → settled s c) → apply_all ss c = c.
Proof.
  induction ss as [|s ss IH]; intros Hall; [done|].
  cbn. rewrite (Hall s) by (by left). apply IH.
  intros t Ht. apply Hall. by right.
Qed.

(** Statements that do not conflict are all settled once they all ran. *)
Lemma all_settled_after ss c :
  (∀ s s', s ∈ ss → s' ∈ ss → conflict s s' = false) →
  ∀ s, s ∈ ss → settled s (apply_all ss c).
Proof.
  revert c. induction ss as [|t ss IH]; intros c Hfree s Hin.
  { by apply elem_of_nil in Hin. }
  cbn. apply elem_of_cons in Hin as [->|Hin].
  - apply settled_preserved_all; [|apply apply_settles].
    intros s' Hs'. apply Hfree; [by left|by right].
  - apply IH; [|done]. intros a b Ha Hb. apply Hfree; by right.
Qed.

(** Running non-conflicting statements a second time changes nothing. *)
Lemma apply_all_twice ss c :
  (∀ s s', s ∈ ss → s' ∈ ss → conflict s s' = false) →
  apply_all ss (apply_all ss c) = apply_all ss c.
Proof.
  intros Hfree. apply apply_all_settled. by apply all_settled_after.
Qed.

Lemma conflict_free_spec ss :
  conflict_free ss = true →
  ∀ s s', s ∈ ss → s' ∈ ss → conflict s s' = false.
Proof.
  unfold conflict_free. rewrite forallb_forall. intros Hall s s' Hs Hs'.
  apply list_elem_of_In in Hs, Hs'.
  specialize (Hall s Hs). rewrite forallb_forall in Hall.
  by apply negb_true_iff, Hall.
Qed.

Lemma universe_conflict_free p : conflict_free (universe p) = true.
Proof. destruct p; vm_compute; reflexivity. Qed.

Lemma accepted_subseteq rejects ss : accepted rejects ss ⊆ ss.
Proof.
  intros s Hs. unfold accepted in Hs.
  apply list_elem_of_In, filter_In in Hs as [Hs _]. by apply list_elem_of_In.
Qed.

Lemma until_rejected_subseteq rejects ss : (until_rejected rejects ss).1 ⊆ ss.
Proof.
  induction ss as [|s ss IH]; [done|]. cbn.
  destruct (rejects s); cbn; [apply list_subseteq_nil|].
  intros t [->|Ht]%elem_of_cons; [by left|]. right. by apply IH.
Qed.

(** The loop stops at a statement of the list that the store refuses, and
    only there. *)
Lemma until_rejected_some rejects ss t :
  (until_rejected rejects ss).2 = Some t → t ∈ ss ∧ rejects t = true.
Proof.
  induction ss as [|s ss IH]; [done|]. cbn.
  destruct (rejects s) eqn:Hs; cbn.
  - intros [= <-]. split; [by left|done].
  - intros Ht. destruct (IH Ht). split; [by right|done].
Qed.

Lemma until_rejected_none rejects ss :
  (until_rejected rejects ss).2 = None ↔ Forall (λ s, rejects s = false) ss.
Proof.
  induction ss as [|s ss IH]; [by split; [constructor|]|]. cbn.
  destruct (rejects s) eqn:Hs; cbn.
  - split; [done|]. intros [Hc _]%Forall_cons. congruence.
  - rewrite IH. split; [by constructor|]. by intros [_ ?]%Forall_cons.
Qed.

Lemma index_stmts_subseteq rejects p :
  index_stmts rejects p
  ⊆ trigram_index :: spatial_indexes p ++ common_indexes ++ [plain_name_index].
Proof.
  unfold index_stmts. intros s [->|Hs]%elem_of_cons; [by left|]. right.
  rewrite !elem_of_app in *. destruct (rejects trigram_index); [done|].
  destruct Hs as [?|[?|Hs]]; auto. by apply elem_of_nil in Hs.
Qed.

Lemma executed_subseteq rejects :
  executed rejects ⊆ universe (probed rejects).
Proof.
  unfold executed, universe. intros s. rewrite !elem_of_app.
  intros [Hs|[Hs|Hs]].
  - left. by apply accepted_subseteq in Hs.
  - right. left. by apply until_rejected_subseteq in Hs.
  - destruct (until_rejected rejects (table_queries _)).2;
      [by apply elem_of_nil in Hs|].
    apply elem_of_app in Hs as [Hs|Hs].
    + apply accepted_subseteq, index_stmts_subseteq in Hs.
      right. right.
      apply elem_of_cons in Hs as [->|Hs]; [left; by left|].
      rewrite !elem_of_app in Hs. rewrite elem_of_cons, !elem_of_app. tauto.
    + apply until_rejected_subseteq in Hs.
      right. right. rewrite elem_of_cons, !elem_of_app. tauto.
Qed.

(** C6: whatever the store accepts or refuses, and so for either value of
    the probed flag, a second [initializeSchema] right after a first one
    leaves the catalog (extensions, tables, indexes, functions, triggers, each
    keyed by name) and the flag as the first left them, and returns the
    same. *)
Theorem initializeSchema_idempotent (rejects : stmt → bool) (w : world) :
  let once := initializeSchema rejects w in
  let twice := initializeSchema rejects once.2 in
  cat twice.2 = cat once.2
  ∧ postgisAvailable twice.2 = postgisAvailable once.2
  ∧ twice.1 = once.1
  ∧ postgisAvailable once.2 = negb (rejects (CreateExtension "postgis")).
Proof.
  intros once twice. unfold twice, once. rewrite !initializeSchema_run.
  cbn [fst snd cat postgisAvailable]. split_and!; try done.
  apply apply_all_twice. intros s s' Hs Hs'.
  apply (conflict_free_spec (universe (probed rejects)));
    [apply universe_conflict_free| |]; by apply executed_subseteq.
Qed.

(** On a fresh database the fallback and the native run both end with the
    five tables, and a second run adds nothing. *)
Example fresh_runs_twice :
  let count r w :=
    let c := cat (initializeSchema r w).2 in
    (size (tables c), size (indexes c), size (functions c), size (triggers c)) in
  count bare_store fresh_world = (5, 14, 2, 3)
  ∧ count bare_store (initializeSchema bare_store fresh_world).2 = (5, 14, 2, 3)
  ∧ count full_store fresh_world = (5, 13, 2, 3)
  ∧ count full_store (initializeSchema full_store fresh_world).2 = (5, 13, 2, 3).
Proof. split_and!; vm_compute; reflexivity. Qed.

(** A store that refuses every index still gets its schema;  a store that
    refuses the [villages] table gets the error and no table. *)
Example refused_indexes_and_refused_table :
  (initializeSchema no_index_store fresh_world).1 = Ok true
  ∧ size (indexes (cat (initializeSchema no_index_store fresh_world).2)) = 0
  ∧ size (tables (cat (initializeSchema no_index_store fresh_world).2)) = 5
  ∧ (initializeSchema no_villages_store fresh_world).1
    = Err (QueryError (createVillagesTable true))
  ∧ size (tables (cat (initializeSchema no_villages_store fresh_world).2)) = 0
  ∧ length (issued (initializeSchema no_villages_store fresh_world).2) = 5.
Proof. split_and!; vm_compute; reflexivity. Qed.

(** C7: [createIndexes] never throws, whatever index statement the store
    refuses; it sends the trigram index first and the plain name index only
    when the trigram index was refused.  What [initializeSchema] returns
    does not depend on the store's verdicts on index statements: it
    succeeds whenever no table and no trigger statement is refused, and it
    throws the store's error when one of the five table statements is
    refused. *)
Theorem index_failures_warn_table_failures_abort
    (rejects : stmt → bool) (w : world) :
  (createIndexes rejects w).1 = Ok tt
  ∧ issued (createIndexes rejects w).2
    = issued w ++ trigram_index
        :: spatial_indexes (postgisAvailable w) ++ common_indexes
        ++ (if rejects trigram_index then [plain_name_index] else [])
  ∧ (∀ rejects' : stmt → bool,
       (∀ s, (∀ i d, s ≠ CreateIndex i d) → rejects' s = rejects s) →
       (initializeSchema rejects' w).1 = (initializeSchema rejects w).1)
  ∧ (Forall (λ s, rejects s = false)
       (table_queries (probed rejects) ++ trigger_stmts (probed rejects)) →
     (initializeSchema rejects w).1 = Ok true)
  ∧ (Exists (λ s, rejects s = true) (table_queries (probed rejects)) →
     ∃ t, t ∈ table_queries (probed rejects) ∧ rejects t = true
          ∧ (createTables rejects (enableExtensions rejects w).2).1
            = Err (QueryError t)
          ∧ (initializeSchema rejects w).1 = Err (QueryError t)).
Proof.
  split_and!.
  - by rewrite createIndexes_run.
  - by rewrite createIndexes_run.
  - intros rejects' Hagree. rewrite !initializeSchema_run. cbn [fst].
    assert (Hp : probed rejects' = probed rejects).
    { unfold probed. by rewrite Hagree. }
    assert (Hu : ∀ ss, Forall (λ s, ∀ i d, s ≠ CreateIndex i d) ss →
                       (until_rejected rejects' ss).2
                       = (until_rejected rejects ss).2).
    { induction 1 as [|s ss Hs _ IH]; [done|]. cbn.
      rewrite (Hagree s Hs). destruct (rejects s); cbn; [done|apply IH]. }
    unfold outcome. rewrite Hp, !Hu; [done| |].
    + destruct (probed rejects); repeat constructor; done.
    + destruct (probed rejects); repeat constructor; done.
  - intros [Ht Hg]%Forall_app. rewrite initializeSchema_run. cbn [fst].
    unfold outcome.
    apply until_rejected_none in Ht, Hg. by rewrite Ht, Hg.
  - intros Hex. rewrite initializeSchema_run. cbn [fst]. unfold outcome.
    rewrite enableExtensions_run, createTables_run, for_each_query.
    cbn [fst snd postgisAvailable].
    destruct (until_rejected rejects (table_queries (probed rejects))).2
      as [t|] eqn:Hu.
    + apply until_rejected_some in Hu as [Hin Hr]. by exists t.
    + apply until_rejected_none in Hu. apply Exists_exists in Hex as (t & Hin & Hr).
      rewrite Forall_forall in Hu. specialize (Hu t Hin). congruence.
Qed.

(** C8: the probe sends the four CREATE EXTENSION statements in the order
    pg_trgm, btree_gist, postgis, postgis_topology whatever the store refuses,
    never throws, and records [true] exactly when the store accepted the
    postgis statement;  each accepted extension is enabled.  In general the
    loop throws only if a required extension is refused, and none of the four
    is required. *)
Theorem enableExtensions_probes_in_order (rejects : stmt → bool) (w : world) :
  (enableExtensions rejects w).1 = Ok tt
  ∧ issued (enableExtensions rejects w).2
    = issued w ++ [ CreateExtension "pg_trgm"; CreateExtension "btree_gist";
                    CreateExtension "postgis";
                    CreateExtension "postgis_topology" ]
  ∧ postgisAvailable (enableExtensions rejects w).2
    = negb (rejects (CreateExtension "postgis"))
  ∧ cat (enableExtensions rejects w).2
    = apply_all (accepted rejects extension_stmts) (cat w)
  ∧ (∀ exts p w' e,
       (enable_loop rejects exts p w').1 = Err e →
       ∃ x, x ∈ exts ∧ required x = true
            ∧ rejects (CreateExtension (ext_name x)) = true
            ∧ e = QueryError (CreateExtension (ext_name x)))
  ∧ Forall (λ x, required x = false) extension_list.
Proof.
  rewrite enableExtensions_run. cbn [fst snd issued postgisAvailable cat].
  split_and!; try done.
  - induction exts as [|x exts IH]; intros p w' e; [done|].
    cbn [enable_loop]. unfold bind at 1. unfold try_catch, bind, query, ret, throw.
    destruct (rejects (CreateExtension (ext_name x))) eqn:Hx.
    + destruct (required x) eqn:Hr.
      * intros [= <-]. exists x. split_and!; try done. by left.
      * intros He. destruct (IH _ _ _ He) as (y & Hy & ?). exists y.
        split; [by right|done].
    + intros He. destruct (IH _ _ _ He) as (y & Hy & ?). exists y.
      split; [by right|done].
  - repeat constructor.
Qed.

(** *** getDatabaseStats *)

Section WithCounts.

Variable count_rows : string → option N.

Lemma stats_loop_lookup ts (m : gmap string stat) t :
  stats_loop count_rows ts m !! t
  = if decide (t ∈ ts)
    then Some (match count_rows t with
               | Some n => Count n
               | None => ErrorMarker
               end)
    else m !! t.
Proof.
  revert m. induction ts as [|u ts IH]; intros m.
  { cbn. rewrite decide_False; [done|]. apply not_elem_of_nil. }
  cbn [stats_loop]. rewrite IH.
  destruct (decide (t ∈ ts)) as [Hin|Hnin].
  - rewrite decide_True; [done|]. by right.
  - destruct (decide (t = u)) as [->|Hne].
    + rewrite decide_True by (by left).
      destruct (count_rows u); by rewrite lookup_insert_eq.
    + rewrite decide_False by (by intros [?|?]%elem_of_cons).
      destruct (count_rows u); by rewrite lookup_insert_ne.
Qed.

End WithCounts.

(** C9: whichever of the five count queries fail, [getDatabaseStats]
    returns a map with an entry for each of the five tables and no other:
    the error marker exactly where the query failed, the count where it did
    not. *)
Theorem getDatabaseStats_marks_failed_tables (count_rows : string → option N) :
  dom (getDatabaseStats count_rows)
  = list_to_set
      [ "villages"; "claimants"; "micro_assets"; "documents"; "users" ]%string
  ∧ Forall (λ t,
      getDatabaseStats count_rows !! t
      = Some (match count_rows t with
              | Some n => Count n
              | None => ErrorMarker
              end)
      ∧ (getDatabaseStats count_rows !! t = Some ErrorMarker
         ↔ count_rows t = None)
      ∧ (∀ n, getDatabaseStats count_rows !! t = Some (Count n)
              ↔ count_rows t = Some n))
      [ "villages"; "claimants"; "micro_assets"; "documents"; "users" ]%string.
Proof.
  fold stat_tables. split.
  - apply set_eq. intros t. rewrite elem_of_dom, elem_of_list_to_set.
    unfold getDatabaseStats. rewrite stats_loop_lookup.
    destruct (decide (t ∈ stat_tables)) as [Hin|Hnin].
    + split; [done|by eauto].
    + rewrite lookup_empty. split; [by intros [? ?]|done].
  - apply Forall_forall. intros t Ht.
    unfold getDatabaseStats. rewrite stats_loop_lookup, decide_True by done.
    destruct (count_rows t); split_and!; try done.
    all: try (split; congruence).
    all: intros n'; split; congruence.
Qed.

(** With [documents] missing, only its entry carries the marker. *)
Example stats_with_documents_missing :
  getDatabaseStats documents_missing
  = list_to_map
      [ ("villages", Count 3); ("claimants", Count 3);
        ("micro_assets", Count 3); ("documents", ErrorMarker);
        ("users", Count 3) ]%string.
Proof. vm_compute. reflexivity. Qed.

End SchemaFacts.


(** * Further properties *)

(** ** The bounding-box filter *)

Module BBoxFacts.

Import Sql VillagesApi.

(** The three-valued condition, read as a two-valued one. *)
Lemma in_box_cases (minLon minLat maxLon maxLat : Q) (r : Village.t) :
  in_box minLon minLat maxLon maxLat r = true
  ↔ (∀ lat, Village.centroid_lat r = Some lat →
       (minLat <= lat)%Q ∧ (lat <= maxLat)%Q)
    ∧ (∀ lon, Village.centroid_lon r = Some lon →
         (minLon <= lon)%Q ∧ (lon <= maxLon)%Q).
Proof.
  unfold in_box, bbox_where, between3, le3.
  destruct (Village.centroid_lat r) as [lat|], (Village.centroid_lon r) as [lon|];
    cbn [is_null]; split.
  all: try (intros H; split; intros x [= <-]; rewrite <- !Qle_bool_iff;
            revert H;
            repeat match goal with
              | |- context [Qle_bool ?a ?b] => destruct (Qle_bool a b)
              end; cbn; intuition congruence).
  all: try (intros [H1 H2];
            try (destruct (H1 _ eq_refl) as [?%Qle_bool_iff ?%Qle_bool_iff]);
            try (destruct (H2 _ eq_refl) as [?%Qle_bool_iff ?%Qle_bool_iff]);
            repeat match goal with
              | H : Qle_bool _ _ = true |- _ => rewrite H; clear H
              end; reflexivity).
Qed.

(** X1: the WHERE clause keeps a row exactly when each centroid column is
    NULL or lies in its range; a NULL in one column leaves the test on the
    other. *)
Theorem in_box_characterised
    (minLon minLat maxLon maxLat : Q) (r : Village.t) :
  in_box minLon minLat maxLon maxLat r = true
  ↔ match Village.centroid_lat r with
    | None => True
    | Some lat => (minLat <= lat ∧ lat <= maxLat)%Q
    end
    ∧ match Village.centroid_lon r with
      | None => True
      | Some lon => (minLon <= lon ∧ lon <= maxLon)%Q
      end.
Proof.
  unfold in_box, bbox_where, between3, le3.
  destruct (Village.centroid_lat r) as [lat|], (Village.centroid_lon r) as [lon|];
    cbn [is_null]; rewrite <- ?Qle_bool_iff;
    repeat match goal with
      | |- context [Qle_bool ?a ?b] => destruct (Qle_bool a b)
      end; cbn; intuition congruence.
Qed.

(** X2: a larger box keeps every row a smaller box keeps. *)
Theorem eligible_grows_with_box (tbl : list Village.t)
    (minLon minLat maxLon maxLat minLon' minLat' maxLon' maxLat' : Q) :
  (minLon' <= minLon)%Q → (maxLon <= maxLon')%Q →
  (minLat' <= minLat)%Q → (maxLat <= maxLat')%Q →
  ∀ r, r ∈ eligible tbl minLon minLat maxLon maxLat →
       r ∈ eligible tbl minLon' minLat' maxLon' maxLat'.
Proof.
  intros H1 H2 H3 H4 r. rewrite !VillagesFacts.eligible_elem.
  intros [Hin Hbox]. split; [done|].
  apply in_box_cases in Hbox as [Hlat Hlon].
  apply in_box_cases. split.
  - intros lat Hl. destruct (Hlat lat Hl). split; eapply Qle_trans; eauto.
  - intros lon Hl. destruct (Hlon lon Hl). split; eapply Qle_trans; eauto.
Qed.

Lemma eligible_grows_with_box_witness :
  let a := sample_row 1 "Amravati" (Some 20.5%Q) (Some 77.5%Q) in
  a ∈ eligible [a] 70 10 80 30.
Proof.
  intros a.
  apply (eligible_grows_with_box [a] 77 20 78 21 70 10 80 30);
    [by compute..|].
  apply VillagesFacts.eligible_elem. split; [by left|reflexivity].
Defined.

(** X3: a box given with its latitudes (or longitudes) the wrong way round
    is not refused; it keeps only rows whose latitude (longitude) is NULL. *)
Theorem inverted_box_keeps_only_null (tbl : list Village.t)
    (minLon minLat maxLon maxLat : Q) (r : Village.t) :
  r ∈ eligible tbl minLon minLat maxLon maxLat →
  ((maxLat < minLat)%Q → Village.centroid_lat r = None)
  ∧ ((maxLon < minLon)%Q → Village.centroid_lon r = None).
Proof.
  rewrite VillagesFacts.eligible_elem. intros [_ Hbox].
  apply in_box_cases in Hbox as [Hlat Hlon].
  split; intros Hinv.
  - destruct (Village.centroid_lat r) as [lat|]; [|done].
    destruct (Hlat lat eq_refl) as [Ha Hb]. exfalso.
    apply (Qlt_irrefl minLat). eapply Qle_lt_trans; [|exact Hinv].
    by eapply Qle_trans.
  - destruct (Village.centroid_lon r) as [lon|]; [|done].
    destruct (Hlon lon eq_refl) as [Ha Hb]. exfalso.
    apply (Qlt_irrefl minLon). eapply Qle_lt_trans; [|exact Hinv].
    by eapply Qle_trans.
Qed.

Lemma inverted_box_keeps_only_null_witness :
  let a := sample_row 1 "Amravati" (Some 20.5%Q) (Some 77.5%Q) in
  let b := sample_row 2 "Rampur" None (Some 77.5%Q) in
  eligible [a; b] 77 21 78 20 = [b]
  ∧ Village.centroid_lat b = None.
Proof.
  intros a b. split; [reflexivity|].
  apply (inverted_box_keeps_only_null [a; b] 77 21 78 20 b).
  - apply VillagesFacts.eligible_elem. split; [set_solver|reflexivity].
  - by compute.
Defined.

End BBoxFacts.

(** ** The import *)

Module ImportExtra.

Import Sql ImportVillages ImportNotions.

Lemma import_loop_total xs db c :
  imported (import_loop xs db c).2 + skipped (import_loop xs db c).2
    + errors (import_loop xs db c).2
  ≤ imported c + skipped c + errors c + length xs.
Proof.
  revert db c. induction xs as [|[f flt] xs IH]; intros db c; [cbn; lia|].
  cbn [import_loop length].
  destruct (import_one db f flt) as [db' []].
  - etrans; [apply IH|]. cbn. lia.
  - etrans; [apply IH|]. cbn. lia.
  - destruct (10 <? _); [cbn; lia|]. etrans; [apply IH|]. cbn. lia.
Qed.

(** X4: served by the store, a feature that has a [properties] object is
    never counted as an error (its name is never NULL: ['Unknown'] stands
    in), so a run over such features processes all of them without error. *)
Theorem well_formed_features_never_error (fs : list feature) (db : store) :
  Forall well_formed fs →
  s_errors (importVillages (served fs) db).2 = 0
  ∧ s_imported (importVillages (served fs) db).2
    + s_skipped (importVillages (served fs) db).2 = length fs.
Proof.
  intros Hwf.
  assert (Hone : ∀ f d, well_formed f → (import_one d f NoFault).2 ≠ Errored).
  { intros f d [p Hp]. unfold import_one. rewrite Hp.
    destruct (0 <? _); [done|]. unfold insert_village.
    destruct (ImportFacts.extracted_name_text p) as [n ->]. done. }
  assert (Herr : ∀ d c, errors (import_loop (served fs) d c).2 = errors c).
  { induction Hwf as [|f fs Hf Hfs IH]; intros d c; [done|].
    cbn [served List.map import_loop]. fold (served fs).
    specialize (Hone f d Hf).
    destruct (import_one d f NoFault) as [d' []]; [| |done]; by rewrite IH. }
  unfold importVillages. cbn [fst snd s_errors s_imported s_skipped].
  pose proof (ImportFacts.import_loop_counts (served fs) db
                {| imported := 0; skipped := 0; errors := 0 |}) as Hc.
  assert (Hlen : length (served fs) = length fs) by apply length_map.
  rewrite !Herr in *. cbn in Hc. split; [done|]. lia.
Qed.

Lemma well_formed_features_never_error_witness :
  let a := sample_feature [("NAME"%string, Js.Str "Sonpur")] in
  let b := sample_feature [] in
  s_errors (importVillages (served [a; b; a]) empty_store).2 = 0
  ∧ Village.name <$> rows (importVillages (served [a; b; a]) empty_store).1
    = ["Sonpur"; "Unknown"; "Sonpur"]%string.
Proof.
  intros a b. split; [|reflexivity].
  apply (well_formed_features_never_error [a; b; a] empty_store).
  repeat apply Forall_cons_2; try apply Forall_nil; by eexists.
Defined.

(** X5: whatever the store refuses, a run counts each feature at most once,
    each processed feature exactly once while the budget holds, never more
    than 11 errors, and the table grows by the number of imported
    features. *)
Theorem import_accounting (xs : list (feature * fault)) (db : store) :
  let s := (importVillages xs db).2 in
  s_errors s ≤ 11
  ∧ s_imported s + s_skipped s + s_errors s ≤ length xs
  ∧ (s_errors s ≤ 10 → s_imported s + s_skipped s + s_errors s = length xs)
  ∧ s_total s = length (rows db) + s_imported s.
Proof.
  unfold importVillages. cbn [fst snd s_errors s_imported s_skipped s_total].
  split_and!.
  - apply ImportFacts.import_loop_errors_bound. cbn. lia.
  - etrans; [apply import_loop_total|]. cbn. lia.
  - intros Hle. rewrite ImportFacts.import_loop_counts by done. cbn. lia.
  - destruct (ImportFacts.import_loop_appends xs db
                {| imported := 0; skipped := 0; errors := 0 |})
      as (new & -> & ->). rewrite length_app. cbn. lia.
Qed.

Lemma ForallOrdPairs_snoc {A} (R : A → A → Prop) (l : list A) (x : A) :
  ForallOrdPairs R l → Forall (λ y, R y x) l → ForallOrdPairs R (l ++ [x]).
Proof.
  induction 1 as [|y l Hy Hl IH]; intros Hx; cbn.
  - repeat constructor.
  - apply Forall_cons in Hx as [Hyx Hx]. constructor; [|by apply IH].
    apply Forall_app. split; [done|]. by constructor.
Qed.

Lemma filter_nil_forall {A} (P : A → bool) (l : list A) :
  List.filter P l = [] → Forall (λ y, P y = false) l.
Proof.
  induction l as [|y l IH]; cbn; [by constructor|].
  destruct (P y) eqn:Hy; [done|]. intros Hl. constructor; auto.
Qed.

Lemma import_one_no_duplicate_keys db f flt :
  no_duplicate_keys (rows db) →
  no_duplicate_keys (rows (import_one db f flt).1).
Proof.
  intros Hinv. unfold import_one.
  destruct (properties f) as [p|]; [|done].
  destruct flt; try done.
  - destruct (select_existing db (extract p)) as [|r l] eqn:Hsel;
      cbn [length Nat.ltb Nat.leb]; [|done].
    unfold insert_village.
    destruct (Js.pg_text (vd_name (extract p))) as [n|] eqn:Hn; [|done].
    cbn [fst rows]. apply ForallOrdPairs_snoc; [done|].
    apply filter_nil_forall in Hsel. unfold new_row.
    cbn [Village.gid Village.name Village.district]. by rewrite <- Hn.
  - destruct (0 <? _); done.
Qed.

(** X6: if no row of the table is found by the dedupe query of a later row,
    the same holds after a run, whatever the features and whatever the
    store refuses: the import never adds a row that its own existence check
    would find. *)
Theorem import_keeps_keys_distinct (xs : list (feature * fault)) (db : store) :
  no_duplicate_keys (rows db) →
  no_duplicate_keys (rows (importVillages xs db).1).
Proof.
  unfold importVillages. cbn [fst].
  generalize {| imported := 0; skipped := 0; errors := 0 |}.
  revert db. induction xs as [|[f flt] xs IH]; intros db c Hinv; [done|].
  cbn [import_loop].
  pose proof (import_one_no_duplicate_keys db f flt Hinv) as Hstep.
  destruct (import_one db f flt) as [db' []]; cbn [fst] in Hstep;
    try by apply IH.
  destruct (10 <? _); [done|]. by apply IH.
Qed.

Lemma import_keeps_keys_distinct_witness :
  let a := sample_feature [("gid"%string, Js.Num 7);
                           ("name"%string, Js.Str "Rampur")] in
  let b := sample_feature [("gid"%string, Js.Num 7);
                           ("name"%string, Js.Str "Sonpur")] in
  no_duplicate_keys
    (rows (importVillages (served [a; b; a]) empty_store).1)
  ∧ length (rows (importVillages (served [a; b; a]) empty_store).1) = 1.
Proof.
  intros a b. split; [|reflexivity].
  apply (import_keeps_keys_distinct (served [a; b; a]) empty_store).
  constructor.
Defined.

Lemma import_one_imported_row db f flt db' :
  import_one db f flt = (db', Imported) →
  ∃ r, rows db' = rows db ++ [r] ∧ row_of_feature r f ∧ lacks_centroid r.
Proof.
  unfold import_one, insert_village. intros H.
  destruct (properties f) as [p|] eqn:Hp; [|done].
  destruct (Js.pg_text (vd_name (extract p))) as [n|] eqn:Hn;
    repeat (case_match; simplify_eq).
  all: eexists; split; [done|]; split; [|done].
  all: exists p; by split_and!.
Qed.

(** X7: every row a run adds mirrors a feature of the dataset: it stores
    the feature's attribute bag and geometry text verbatim beside the
    extracted fields, has no centroid, and therefore passes the
    bounding-box filter of [/api/villages] for every box. *)
Theorem imported_rows_mirror_features (xs : list (feature * fault)) (db : store) :
  ∃ new,
    rows (importVillages xs db).1 = rows db ++ new
    ∧ Forall (λ r,
        (∃ f flt, (f, flt) ∈ xs ∧ row_of_feature r f)
        ∧ lacks_centroid r
        ∧ ∀ minLon minLat maxLon maxLat,
            VillagesApi.in_box minLon minLat maxLon maxLat r = true) new.
Proof.
  unfold importVillages. cbn [fst].
  generalize {| imported := 0; skipped := 0; errors := 0 |}.
  revert db. induction xs as [|[f flt] xs IH]; intros db c.
  { exists []. cbn. by rewrite app_nil_r. }
  cbn [import_loop].
  destruct (import_one db f flt) as [db' o] eqn:Hone.
  assert (Hweaken : ∀ c', ∃ new,
            rows (import_loop xs db' c').1 = rows db' ++ new
            ∧ Forall (λ r,
                (∃ f0 flt0, (f0, flt0) ∈ (f, flt) :: xs ∧ row_of_feature r f0)
                ∧ lacks_centroid r
                ∧ ∀ minLon minLat maxLon maxLat,
                    VillagesApi.in_box minLon minLat maxLon maxLat r = true)
                new).
  { intros c'. destruct (IH db' c') as (new & Hr & Hnew). exists new.
    split; [done|]. eapply Forall_impl; [exact Hnew|].
    intros r ((f0 & flt0 & Hin & Hrow) & Hrest). split; [|done].
    exists f0, flt0. split; [by right|done]. }
  destruct o.
  - destruct (import_one_imported_row _ _ _ _ Hone) as (r & Hrows & Hrow & Hc).
    destruct (Hweaken {| imported := imported c + 1; skipped := skipped c;
                         errors := errors c |}) as (new & Hr & Hnew).
    exists (r :: new). rewrite Hr, Hrows, <- app_assoc. split; [done|].
    constructor; [|done]. split; [|split; [done|]].
    + exists f, flt. split; [by left|done].
    + intros. destruct Hc. by apply VillagesFacts.in_box_null.
  - apply ImportFacts.import_one_keeps in Hone as ->; [|done]. apply Hweaken.
  - apply ImportFacts.import_one_keeps in Hone as ->; [|done].
    destruct (10 <? _); [|apply Hweaken].
    exists []. cbn. by rewrite app_nil_r.
Qed.

(** X8: of two features that yield the same gid, name and district texts
    (one of gid and district not NULL), the second is skipped, whatever else
    the two differ in: the table is as if the second were not in the
    dataset. *)
Theorem same_key_second_skipped (db : store) (f1 f2 : feature)
    (p1 p2 : gmap string Js.value) :
  properties f1 = Some p1 → properties f2 = Some p2 →
  keyed f1 →
  Js.pg_text (vd_gid (extract p1)) = Js.pg_text (vd_gid (extract p2)) →
  Js.pg_text (vd_name (extract p1)) = Js.pg_text (vd_name (extract p2)) →
  Js.pg_text (vd_district (extract p1)) = Js.pg_text (vd_district (extract p2)) →
  (importVillages (served [f1; f2]) db).1 = (importVillages (served [f1]) db).1
  ∧ s_imported (importVillages (served [f1; f2]) db).2
    = s_imported (importVillages (served [f1]) db).2
  ∧ s_skipped (importVillages (served [f1; f2]) db).2
    = s_skipped (importVillages (served [f1]) db).2 + 1.
Proof.
  intros Hp1 Hp2 Hkey Hg Hn Hd.
  destruct (ImportFacts.import_one_served_covers db f1 p1 Hp1 Hkey)
    as (db' & o & Hone & Ho & _ & Hcov).
  assert (Hskip : import_one db' f2 NoFault = (db', Skipped)).
  { apply (ImportFacts.import_one_skips db' f2 p2 NoFault Hp2); [done|].
    unfold select_existing in *. by rewrite <- Hg, <- Hn, <- Hd. }
  unfold importVillages, served. cbn [List.map import_loop].
  rewrite Hone. destruct o; [| |done]; rewrite Hskip; cbn; done.
Qed.

Lemma same_key_second_skipped_witness :
  let a := sample_feature [("gid"%string, Js.Num 7);
                           ("name"%string, Js.Str "Rampur");
                           ("state"%string, Js.Str "Odisha")] in
  let b := sample_feature [("gid"%string, Js.Num 7);
                           ("NAME"%string, Js.Str "Rampur");
                           ("block"%string, Js.Str "Sadar")] in
  (importVillages (served [a; b]) empty_store).1
  = (importVillages (served [a]) empty_store).1.
Proof.
  intros a b.
  apply (same_key_second_skipped empty_store a b
           (list_to_map [("gid"%string, Js.Num 7);
                         ("name"%string, Js.Str "Rampur");
                         ("state"%string, Js.Str "Odisha")])
           (list_to_map [("gid"%string, Js.Num 7);
                         ("NAME"%string, Js.Str "Rampur");
                         ("block"%string, Js.Str "Sadar")])).
  - reflexivity.
  - reflexivity.
  - intros p [= <-]. left. vm_compute. done.
  - reflexivity.
  - reflexivity.
  - reflexivity.
Defined.

End ImportExtra.

(** ** The schema manager, further *)

Module SchemaExtra.

Import Schema SchemaNotions.

Lemma create_if_absent_subseteq {V} (k : string) (v : V) (m : gmap string V) :
  m ⊆ create_if_absent k v m.
Proof.
  unfold create_if_absent. destruct (m !! k) eqn:Hk; [done|].
  by apply insert_subseteq.
Qed.

(** No accepted statement drops or alters a table or an index, drops an
    extension, or drops a function or a trigger. *)
Lemma apply_keeps s c :
  extensions c ⊆ extensions (apply s c)
  ∧ tables c ⊆ tables (apply s c)
  ∧ indexes c ⊆ indexes (apply s c)
  ∧ dom (functions c) ⊆ dom (functions (apply s c))
  ∧ dom (triggers c) ⊆ dom (triggers (apply s c)).
Proof.
  destruct s; cbn; split_and!; try done.
  - apply union_subseteq_r.
  - apply create_if_absent_subseteq.
  - apply create_if_absent_subseteq.
  - rewrite dom_insert_L. apply union_subseteq_r.
  - rewrite insert_delete_eq, dom_insert_L. apply union_subseteq_r.
Qed.

Lemma apply_all_keeps ss c :
  extensions c ⊆ extensions (apply_all ss c)
  ∧ tables c ⊆ tables (apply_all ss c)
  ∧ indexes c ⊆ indexes (apply_all ss c)
  ∧ dom (functions c) ⊆ dom (functions (apply_all ss c))
  ∧ dom (triggers c) ⊆ dom (triggers (apply_all ss c)).
Proof.
  revert c. induction ss as [|s ss IH]; intros c; [done|].
  cbn. destruct (apply_keeps s c) as (H1 & H2 & H3 & H4 & H5).
  destruct (IH (apply s c)) as (I1 & I2 & I3 & I4 & I5).
  split_and!; etrans; eauto.
Qed.


(** A table made under the fallback layout keeps it when a later run finds
    postgis. *)
Example fallback_table_survives_native_run :
  let w := (initializeSchema bare_store fresh_world).2 in
  let w' := (initializeSchema full_store w).2 in
  postgisAvailable w = false ∧ postgisAvailable w' = true
  ∧ tables (cat w') = table_layouts false
  ∧ is_Some (triggers (cat w') !! ("villages", "trg_update_village_centroid")%string).
Proof. split_and!; vm_compute; eauto. Qed.

Lemma until_rejected_split rejects pre t post :
  Forall (λ s, rejects s = false) pre → rejects t = true →
  until_rejected rejects (pre ++ t :: post) = (pre, Some t).
Proof.
  induction 1 as [|s pre Hs Hpre IH]; intros Ht; cbn.
  - by rewrite Ht.
  - rewrite Hs, IH by done. done.
Qed.

Lemma apply_all_tables_lookup ss c t cols :
  CreateTable t cols ∈ ss → is_Some (tables (apply_all ss c) !! t).
Proof.
  revert c. induction ss as [|s ss IH]; intros c Hin.
  { by apply elem_of_nil in Hin. }
  cbn. apply elem_of_cons in Hin as [<-|Hin]; [|by apply IH].
  destruct (apply_all_keeps ss (apply (CreateTable t cols) c)) as (_ & Hsub & _).
  assert (Hs : is_Some (tables (apply (CreateTable t cols) c) !! t)).
  { cbn. unfold create_if_absent. destruct (tables c !! t) eqn:Hk.
    - rewrite Hk. eauto.
    - rewrite lookup_insert_eq. eauto. }
  destruct Hs as [v Hv]. exists v. eapply lookup_weaken; eauto.
Qed.

(** X10: when the store refuses one of the five table statements, the call
    throws that statement's error, the tables created before it stay in the
    database (nothing is rolled back), and nothing after it is sent: no
    later table, no index, no trigger. *)
Theorem refused_table_keeps_earlier_tables
    (rejects : stmt → bool) (w : world) (pre post : list stmt) (t : stmt) :
  table_queries (probed rejects) = pre ++ t :: post →
  Forall (λ s, rejects s = false) pre →
  rejects t = true →
  (initializeSchema rejects w).1 = Err (QueryError t)
  ∧ cat (initializeSchema rejects w).2
    = apply_all (accepted rejects extension_stmts ++ pre) (cat w)
  ∧ issued (initializeSchema rejects w).2
    = issued w ++ extension_stmts ++ pre ++ [t]
  ∧ (∀ name cols, CreateTable name cols ∈ pre →
       is_Some (tables (cat (initializeSchema rejects w).2) !! name)).
Proof.
  intros Hsplit Hpre Ht.
  pose proof (until_rejected_split rejects pre t post Hpre Ht) as Hu.
  rewrite <- Hsplit in Hu.
  rewrite SchemaFacts.initializeSchema_run. cbn [fst snd cat issued].
  unfold outcome, executed, sent. rewrite Hu. cbn [fst snd].
  rewrite app_nil_r. split_and!; try done.
  intros name cols Hin. apply (apply_all_tables_lookup _ _ name cols).
  apply elem_of_app. by right.
Qed.

Lemma refused_table_keeps_earlier_tables_witness :
  let rejects s := match s with
                   | CreateTable t _ => String.eqb t "micro_assets"
                   | _ => false
                   end in
  (initializeSchema rejects fresh_world).1
  = Err (QueryError (createMicroAssetsTable true))
  ∧ dom (tables (cat (initializeSchema rejects fresh_world).2))
    = {[ "villages"; "claimants" ]}%string.
Proof.
  intros rejects.
  destruct (refused_table_keeps_earlier_tables rejects fresh_world
              [createVillagesTable true; createClaimantsTable true]
              [createDocumentsTable; createUsersTable]
              (createMicroAssetsTable true)) as (H1 & H2 & _).
  - reflexivity.
  - by repeat constructor.
  - reflexivity.
  - split; [exact H1|]. rewrite H2. vm_compute. reflexivity.
Defined.

Lemma apply_all_tables_congr ss c c0 :
  tables c = tables c0 → tables (apply_all ss c) = tables (apply_all ss c0).
Proof.
  revert c c0. induction ss as [|s ss IH]; intros c c0 Heq; [done|].
  cbn. apply IH. destruct s; cbn; by rewrite ?Heq.
Qed.

Lemma apply_all_tables_untouched ss c :
  Forall makes_no_table ss → tables (apply_all ss c) = tables c.
Proof.
  revert c. induction ss as [|s ss IH]; intros c Hall; [done|].
  apply Forall_cons in Hall as [Hs Hall]. cbn. rewrite IH by done.
  by destruct s.
Qed.

Lemma accepted_forall rejects (P : stmt → Prop) ss :
  Forall P ss → Forall P (accepted rejects ss).
Proof.
  intros Hall. apply Forall_forall. intros s Hs.
  apply SchemaFacts.accepted_subseteq in Hs.
  rewrite Forall_forall in Hall. by apply Hall.
Qed.

Lemma until_rejected_forall rejects (P : stmt → Prop) ss :
  Forall P ss → Forall P (until_rejected rejects ss).1.
Proof.
  intros Hall. apply Forall_forall. intros s Hs.
  apply SchemaFacts.until_rejected_subseteq in Hs.
  rewrite Forall_forall in Hall. by apply Hall.
Qed.

Lemma until_rejected_all rejects ss :
  Forall (λ s, rejects s = false) ss → until_rejected rejects ss = (ss, None).
Proof.
  induction 1 as [|s ss Hs _ IH]; [done|]. cbn. by rewrite Hs, IH.
Qed.

Lemma other_stmts_make_no_table rejects p :
  Forall makes_no_table extension_stmts
  ∧ Forall makes_no_table (index_stmts rejects p)
  ∧ Forall makes_no_table (trigger_stmts p).
Proof.
  unfold index_stmts.
  destruct p, (rejects trigram_index); split_and!; by repeat constructor.
Qed.

(** X11: on a database that has no table, when no table statement is
    refused, [initializeSchema] leaves exactly the five tables in the layout
    of the probed flag (native columns exactly when the postgis statement was
    accepted), whatever the store does with extensions, indexes and triggers,
    and also when a trigger statement makes the call throw. *)
Theorem fresh_tables_follow_flag (rejects : stmt → bool) (w : world) :
  tables (cat w) = ∅ →
  Forall (λ s, rejects s = false) (table_queries (probed rejects)) →
  let p := negb (rejects (CreateExtension "postgis")) in
  let made := tables (cat (initializeSchema rejects w).2) in
  made = table_layouts p
  ∧ dom made
    = list_to_set
        ["villages"; "claimants"; "micro_assets"; "documents"; "users"]%string
  ∧ has_column made "villages" "boundary" = p
  ∧ has_column made "villages" "centroid" = p
  ∧ has_column made "villages" "boundary_geojson" = negb p
  ∧ has_column made "villages" "centroid_lat" = negb p
  ∧ has_column made "villages" "centroid_lon" = negb p
  ∧ has_column made "claimants" "geom" = p
  ∧ has_column made "claimants" "geometry_geojson" = negb p
  ∧ has_column made "micro_assets" "geom" = p
  ∧ has_column made "micro_assets" "geometry_geojson" = negb p.
Proof.
  intros Hempty Hacc p made.
  assert (Hmade : made = table_layouts p).
  { unfold made. rewrite SchemaFacts.initializeSchema_run. cbn [snd cat].
    unfold executed. rewrite (until_rejected_all _ _ Hacc). cbn [fst snd].
    destruct (other_stmts_make_no_table rejects (probed rejects))
      as (He & Hi & Hg).
    rewrite !SchemaFacts.apply_all_app.
    rewrite apply_all_tables_untouched
      by (apply until_rejected_forall, Hg).
    rewrite apply_all_tables_untouched by (apply accepted_forall, Hi).
    unfold table_layouts. apply apply_all_tables_congr.
    rewrite apply_all_tables_untouched by (apply accepted_forall, He).
    done. }
  rewrite Hmade. clear. destruct p; split_and!; vm_compute; reflexivity.
Qed.

Lemma fresh_tables_follow_flag_witness :
  has_column (tables (cat (initializeSchema no_index_store fresh_world).2))
    "villages" "centroid_lat" = false
  ∧ has_column (tables (cat (initializeSchema bare_store fresh_world).2))
      "villages" "centroid_lat" = true.
Proof.
  assert (H1 : Forall (λ s, no_index_store s = false)
                 (table_queries (probed no_index_store)))
    by (by repeat constructor).
  assert (H2 : Forall (λ s, bare_store s = false)
                 (table_queries (probed bare_store)))
    by (by repeat constructor).
  split.
  - pose proof (fresh_tables_follow_flag no_index_store fresh_world eq_refl H1)
      as (_ & _ & _ & _ & _ & H & _).
    exact H.
  - pose proof (fresh_tables_follow_flag bare_store fresh_world eq_refl H2)
      as (_ & _ & _ & _ & _ & H & _).
    exact H.
Defined.

Lemma apply_all_index_lookup ss c i d :
  CreateIndex i d ∈ ss → is_Some (indexes (apply_all ss c) !! i).
Proof.
  revert c. induction ss as [|s ss IH]; intros c Hin.
  { by apply elem_of_nil in Hin. }
  cbn. apply elem_of_cons in Hin as [<-|Hin]; [|by apply IH].
  destruct (apply_all_keeps ss (apply (CreateIndex i d) c)) as (_ & _ & Hsub & _).
  assert (Hs : is_Some (indexes (apply (CreateIndex i d) c) !! i)).
  { cbn. unfold create_if_absent. destruct (indexes c !! i) eqn:Hk.
    - rewrite Hk. eauto.
    - rewrite lookup_insert_eq. eauto. }
  destruct Hs as [v Hv]. exists v. eapply lookup_weaken; eauto.
Qed.

Lemma apply_all_index_absent ss c i :
  Forall (λ s, index_name s ≠ Some i) ss →
  indexes (apply_all ss c) !! i = indexes c !! i.
Proof.
  revert c. induction ss as [|s ss IH]; intros c Hall; [done|].
  apply Forall_cons in Hall as [Hs Hall]. cbn. rewrite IH by done.
  destruct s; cbn in *; try done.
  unfold create_if_absent. destruct (indexes c !! idx); [done|].
  apply lookup_insert_ne. congruence.
Qed.

Lemma accepted_elem rejects s ss :
  s ∈ ss → rejects s = false → s ∈ accepted rejects ss.
Proof.
  intros Hin Hs. apply list_elem_of_In, filter_In.
  split; [by apply list_elem_of_In|by rewrite Hs].
Qed.

(** X19: after [createIndexes] the village name is indexed one way or the
    other unless the store refuses both statements: the trigram index is
    there when its statement is accepted, and then the plain index is not
    made; the plain index is there when the trigram statement is refused and
    its own is accepted. *)
Theorem name_index_falls_back (rejects : stmt → bool) (w : world) :
  let before := indexes (cat w) in
  let after := indexes (cat (createIndexes rejects w).2) in
  (rejects trigram_index = false →
     is_Some (after !! "idx_villages_name_trgm"%string)
     ∧ after !! "idx_villages_name"%string = before !! "idx_villages_name"%string)
  ∧ (rejects trigram_index = true → rejects plain_name_index = false →
       is_Some (after !! "idx_villages_name"%string)
       ∧ after !! "idx_villages_name_trgm"%string
         = before !! "idx_villages_name_trgm"%string)
  ∧ (rejects trigram_index = true → rejects plain_name_index = true →
       after !! "idx_villages_name"%string = before !! "idx_villages_name"%string
       ∧ after !! "idx_villages_name_trgm"%string
         = before !! "idx_villages_name_trgm"%string).
Proof.
  cbn zeta. rewrite SchemaFacts.createIndexes_run. cbn [snd cat].
  unfold index_stmts.
  assert (Hbase : ∀ i, i = "idx_villages_name"%string
                       ∨ i = "idx_villages_name_trgm"%string →
            Forall (λ s, index_name s ≠ Some i)
              (spatial_indexes (postgisAvailable w) ++ common_indexes)).
  { intros i [-> | ->]; destruct (postgisAvailable w);
      repeat constructor; done. }
  split_and!.
  - intros Ht. rewrite Ht, app_nil_r. split.
    + apply (apply_all_index_lookup _ _ _ (mkIndex "villages" Gin "name gin_trgm_ops")).
      apply accepted_elem; [by left|done].
    + apply apply_all_index_absent, accepted_forall.
      constructor; [done|]. apply Hbase. by left.
  - intros Ht Hp. rewrite Ht. split.
    + apply (apply_all_index_lookup _ _ _ (mkIndex "villages" Btree "name")).
      apply accepted_elem; [|done]. right. rewrite app_assoc.
      apply elem_of_app. right. by left.
    + unfold accepted. cbn [List.filter]. rewrite Ht. cbn [negb].
      apply apply_all_index_absent, accepted_forall.
      rewrite app_assoc. apply Forall_app. split.
      * apply Hbase. by right.
      * by repeat constructor.
  - intros Ht Hp. rewrite Ht.
    unfold accepted. cbn [List.filter]. rewrite Ht. cbn [negb].
    rewrite app_assoc, List.filter_app. cbn [List.filter].
    rewrite Hp. cbn [negb]. rewrite app_nil_r.
    split; apply apply_all_index_absent, accepted_forall, Hbase; auto.
Qed.

End SchemaExtra.

(** ** Health and start-up *)

Module HealthFacts.

Import Schema Health.

(** X12: [checkHealth] reports healthy exactly when the liveness query is
    served; the five count queries play no part in the status: the report is
    healthy, with the marker at each failed table, even when every table is
    missing. *)
Theorem checkHealth_status_ignores_tables
    (ping : option string) (count_rows : string → option N) (now : string) :
  ((∃ tables, checkHealth ping count_rows now = Healthy now tables)
   ↔ ping = None)
  ∧ (∀ message, ping = Some message →
       checkHealth ping count_rows now = Unhealthy message now)
  ∧ ∃ tables,
      checkHealth None count_rows now = Healthy now tables
      ∧ dom tables = list_to_set stat_tables
      ∧ ∀ t, tables !! t = Some ErrorMarker
             ↔ t ∈ stat_tables ∧ count_rows t = None.
Proof.
  split_and!.
  - destruct ping; cbn; split; try done; [by intros [? ?]|by eauto].
  - by intros message ->.
  - exists (getDatabaseStats count_rows). split; [done|].
    unfold getDatabaseStats. split.
    + apply set_eq. intros t.
      rewrite elem_of_dom, elem_of_list_to_set, SchemaFacts.stats_loop_lookup.
      destruct (decide (t ∈ stat_tables)); [by eauto|].
      rewrite lookup_empty. split; [by intros [? ?]|done].
    + intros t. rewrite SchemaFacts.stats_loop_lookup.
      destruct (decide (t ∈ stat_tables)) as [Hin|Hnin].
      * destruct (count_rows t) as [n|].
        -- split; [done|by intros [_ ?]].
        -- split; [by intros _|done].
      * rewrite lookup_empty. split; [done|by intros [? _]].
Qed.

Lemma outcome_ok_iff rejects :
  outcome rejects = Ok true
  ↔ Forall (λ s, rejects s = false)
      (table_queries (probed rejects) ++ trigger_stmts (probed rejects)).
Proof.
  unfold outcome. rewrite Forall_app, <- !SchemaFacts.until_rejected_none.
  destruct (until_rejected rejects (table_queries _)).2,
    (until_rejected rejects (trigger_stmts _)).2; split; try done;
    intros [? ?]; done.
Qed.

Lemma outcome_ok_or_err rejects :
  outcome rejects = Ok true ∨ ∃ e, outcome rejects = Err e.
Proof.
  unfold outcome.
  destruct (until_rejected rejects (table_queries _)).2; [by eauto|].
  destruct (until_rejected rejects (trigger_stmts _)).2; by eauto.
Qed.

(** X13: the server's start-up goes on, and the schema-only script exits
    with code 0, exactly when the connection test passes and the store
    refuses no table and no trigger statement (and, for the script, the
    pool closes); refused extensions and refused indexes never stop
    either. *)
Theorem startup_fails_only_on_connection_tables_triggers
    (rejects : stmt → bool) (connects closes : bool) (w : world) :
  let needed := table_queries (probed rejects) ++ trigger_stmts (probed rejects) in
  ((server_initializeDatabase rejects connects w).1 = None
   ↔ connects = true ∧ Forall (λ s, rejects s = false) needed)
  ∧ ((server_initializeDatabase rejects connects w).1 = None
     ∨ (server_initializeDatabase rejects connects w).1 = Some 1)
  ∧ ((setupSchemaOnly rejects connects closes w).1 = 0
     ↔ connects = true ∧ closes = true
       ∧ Forall (λ s, rejects s = false) needed)
  ∧ ((setupSchemaOnly rejects connects closes w).1 = 0
     ∨ (setupSchemaOnly rejects connects closes w).1 = 1).
Proof.
  cbn zeta. unfold server_initializeDatabase, setupSchemaOnly.
  rewrite SchemaFacts.initializeSchema_run.
  rewrite <- outcome_ok_iff.
  destruct (outcome_ok_or_err rejects) as [->|[e ->]];
    destruct connects, closes; cbn; split_and!; try tauto;
    try (split; [done|intros (? & ?); done]);
    try (split; [done|intros (? & ? & ?); done]);
    try (split; [done|by intros []]).
Qed.

End HealthFacts.

(** ** The serverless entry point *)

Module ServerlessFacts.

Import Schema Health Serverless.

Lemma serve_app st es1 es2 :
  serve st (es1 ++ es2)
  = ((serve st es1).1 ++ (serve (serve st es1).2 es2).1,
     (serve (serve st es1).2 es2).2).
Proof.
  revert st. induction es1 as [|e es1 IH]; intros st; cbn [serve app].
  - cbn [fst snd app]. by destruct (serve st es2).
  - rewrite IH. done.
Qed.

Lemma serve_down st es :
  dbInitialized st = false → Forall (λ x, connects x = false) es →
  serve st es
  = ((λ x, (503, Unhealthy "Database connection failed" (now x))) <$> es,
     {| dbInitialized := false; tests := tests st + length es |}).
Proof.
  intros Hst Hall. revert st Hst.
  induction Hall as [|e es He _ IH]; intros st Hst.
  { cbn. destruct st; cbn in *. subst. by rewrite Nat.add_0_r. }
  destruct st as [i n]. cbn in Hst. subst i.
  cbn [serve]. unfold health_endpoint, initializeDatabase.
  cbn [dbInitialized tests]. rewrite He. cbn [fst snd].
  rewrite IH by done. cbn [fst snd tests length fmap list_fmap].
  replace (n + 1 + length es) with (n + S (length es)) by lia. done.
Qed.

Lemma serve_up st es :
  dbInitialized st = true →
  serve st es
  = ((λ x, (200, checkHealth (ping x) (count_rows x) (now x))) <$> es, st).
Proof.
  intros Hst. induction es as [|e es IH]; [done|].
  cbn [serve]. unfold health_endpoint, initializeDatabase.
  rewrite Hst. cbn [fst snd]. by rewrite IH.
Qed.

Lemma serve_first_success st e es :
  dbInitialized st = false → connects e = true →
  serve st (e :: es)
  = ((λ x, (200, checkHealth (ping x) (count_rows x) (now x))) <$> e :: es,
     {| dbInitialized := true; tests := tests st + 1 |}).
Proof.
  intros Hst Hup. destruct st as [i n]. cbn in Hst. subst i.
  cbn [serve]. unfold health_endpoint, initializeDatabase.
  cbn [dbInitialized tests]. rewrite Hup. cbn [fst snd].
  by rewrite serve_up.
Qed.

(** X14: in the serverless entry point the connection is tested on each
    request until a test passes, and never again afterwards: requests
    before the first passing test are answered 503, every request from it on
    is answered 200 with the report of [checkHealth], also when the
    database has gone away since (the report then says unhealthy). *)
Theorem connection_tested_until_first_success
    (st : state) (es1 es2 : list env) (e : env) :
  dbInitialized st = false →
  Forall (λ x, connects x = false) es1 →
  connects e = true →
  (serve st (es1 ++ e :: es2)).1
  = ((λ x, (503, Unhealthy "Database connection failed" (now x))) <$> es1)
    ++ ((λ x, (200, checkHealth (ping x) (count_rows x) (now x)))
          <$> e :: es2)
  ∧ tests (serve st (es1 ++ e :: es2)).2 = tests st + length es1 + 1
  ∧ dbInitialized (serve st (es1 ++ e :: es2)).2 = true.
Proof.
  intros Hst Hdown Hup.
  rewrite serve_app, (serve_down st es1 Hst Hdown). cbn [fst snd].
  rewrite serve_first_success by done. cbn [fst snd tests dbInitialized].
  done.
Qed.

Lemma connection_tested_until_first_success_witness :
  let up := mkEnv true None (λ _, Some 3%N) "t1" in
  let down := mkEnv false (Some "connection refused") (λ _, None) "t2" in
  (serve cold [down; up; down]).1
  = [ (503, Unhealthy "Database connection failed" "t2");
      (200, Healthy "t1" (getDatabaseStats (λ _, Some 3%N)));
      (200, Unhealthy "connection refused" "t2") ]
  ∧ tests (serve cold [down; up; down]).2 = 2.
Proof.
  intros up down.
  destruct (connection_tested_until_first_success cold [down] [down] up)
    as (H1 & H2 & _).
  - reflexivity.
  - by repeat constructor.
  - reflexivity.
  - split; [exact H1|exact H2].
Defined.

End ServerlessFacts.

(** ** The pool manager *)

Module DatabaseManagerFacts.

Import DatabaseManager.

(** The manager has no pool and none was made, or it holds the first pool
    made and no other was. *)
Lemma run_invariant ops m :
  (the_pool m = None ∧ pools_made m = 0
   ∨ ∃ e, the_pool m = Some (mkPool 0 e) ∧ pools_made m = 1) →
  the_pool (run ops m) = None ∧ pools_made (run ops m) = 0
  ∨ ∃ e, the_pool (run ops m) = Some (mkPool 0 e) ∧ pools_made (run ops m) = 1.
Proof.
  revert m. induction ops as [|o ops IH]; intros m Hm; [done|].
  cbn. apply IH. destruct m as [[[i e]|] c n], Hm as [[H1 H2]|(e' & H1 & H2)];
    cbn in *; simplify_eq;
    destruct o; cbn; unfold close, createPool, getPool; cbn;
    try destruct e'; cbn; eauto.
Qed.

(** X15: whatever is called and in whatever order, the manager makes at
    most one pool in its life;  [createPool] and [getPool] hand out that same
    pool, also after [close]. *)
Theorem at_most_one_pool (ops : list op) :
  pools_made (run ops new_manager) ≤ 1
  ∧ (∀ p, the_pool (run ops new_manager) = Some p → pool_id p = 0)
  ∧ (∀ o, o = CreatePool ∨ o = GetPool →
          is_Some (the_pool (run ops new_manager)) →
          step (run ops new_manager) o = run ops new_manager).
Proof.
  destruct (run_invariant ops new_manager) as [[Hp Hn]|(e & Hp & Hn)];
    [by left| |].
  - split_and!.
    + lia.
    + intros p Hq. congruence.
    + intros o _ [q Hq]. congruence.
  - split_and!.
    + lia.
    + intros p Hq. rewrite Hp in Hq. by injection Hq as <-.
    + intros o [-> | ->] _; cbn; unfold getPool, createPool; by rewrite Hp.
Qed.

Lemma step_closed m o p :
  the_pool m = Some p → ended p = true →
  the_pool (step m o) = Some p ∧ pools_made (step m o) = pools_made m.
Proof.
  intros Hp He.
  destruct o; cbn; unfold createPool, getPool, close; rewrite ?Hp, ?He; done.
Qed.

Lemma closed_stays_closed ops m p :
  the_pool m = Some p → ended p = true →
  the_pool (run ops m) = Some p ∧ pools_made (run ops m) = pools_made m.
Proof.
  revert m. induction ops as [|o ops IH]; intros m Hp He; [done|].
  change (run (o :: ops) m) with (run ops (step m o)).
  destruct (step_closed m o p Hp He) as [Hp' Hn'].
  destruct (IH (step m o) Hp' He) as [Hq Hn]. by rewrite Hq, Hn.
Qed.

(** X16: once [close] has ended the pool, the manager is never healthy
    again and never makes a fresh pool: the field keeps the ended pool,
    which [getPool] goes on handing out. *)
Theorem closed_manager_never_recovers (m : manager) (ops : list op) :
  is_Some (the_pool m) →
  isHealthy (run (Close :: ops) m) = false
  ∧ pools_made (run (Close :: ops) m) = pools_made m
  ∧ ∃ q, the_pool (run (Close :: ops) m) = Some q ∧ ended q = true
         ∧ the_pool (getPool (run (Close :: ops) m)) = Some q.
Proof.
  intros [p Hp]. cbn [run fold_left step].
  assert (Hc : ∃ q, the_pool (close m) = Some q ∧ ended q = true
                    ∧ pools_made (close m) = pools_made m).
  { unfold close. rewrite Hp. destruct (ended p) eqn:He.
    - exists p. by rewrite Hp.
    - by eexists. }
  destruct Hc as (q & Hq & Hqe & Hn).
  destruct (closed_stays_closed ops (close m) q Hq Hqe) as [Hq' Hn'].
  fold (run ops (close m)). unfold isHealthy, getPool. rewrite Hq', Hqe, Hn', Hn.
  split_and!; [by rewrite andb_false_r|done|by exists q].
Qed.

Lemma closed_manager_never_recovers_witness :
  isHealthy (run [GetPool; EvConnect] new_manager) = true
  ∧ isHealthy (run [Close; EvConnect; CreatePool; GetPool]
                 (run [GetPool; EvConnect] new_manager)) = false.
Proof.
  split; [reflexivity|].
  apply (closed_manager_never_recovers (run [GetPool; EvConnect] new_manager)
           [EvConnect; CreatePool; GetPool]).
  by eexists.
Defined.

End DatabaseManagerFacts.

(** ** POST /api/claims *)

Module ClaimsFacts.

Import ClaimsApi.

(** The handler always answers. *)
Lemma post_claim_total ilike st b flt :
  ∃ out, post_claim ilike st b flt out.
Proof.
  destruct (matching ilike st (Js.pg_text (village_name b))) as [|r l] eqn:Hm.
  - eexists. exists None. split; [|done]. by rewrite Hm.
  - eexists. exists (Some r). split; [|done]. rewrite Hm. by left.
Qed.



(** X18: a created claim is one new row at the end of [claimants], with
    the next id, a non-NULL name, the type IFR or CR and the status pending
    (so the NOT NULL and CHECK constraints on name and type hold);  no village
    row changes.  Its village is NULL or the id of a village whose name
    matches the given name, [village_found] says which, and a NULL village
    for a given name means that no village matched. *)
Theorem post_claim_creates_valid_row
    (ilike : string → string → bool) (st : store) (b : body) (flt : fault)
    (out : response * store) (c : Claimant.t) (found : bool) :
  post_claim ilike st b flt out →
  out.1 = Created c found →
  villages out.2 = villages st
  ∧ claimants out.2 = claimants st ++ [c]
  ∧ Claimant.id c = next_id st
  ∧ Js.pg_text (name b) = Some (Claimant.name c)
  ∧ (Claimant.claimant_type c = Some "IFR"%string
     ∨ Claimant.claimant_type c = Some "CR"%string)
  ∧ Claimant.status c = Some "pending"%string
  ∧ (found = true ↔ is_Some (Claimant.village_id c))
  ∧ (∀ vid, Claimant.village_id c = Some vid →
       Js.truthy (village_name b) = true
       ∧ ∃ r pattern, r ∈ villages st ∧ Village.id r = vid
                      ∧ Js.pg_text (village_name b) = Some pattern
                      ∧ ilike (Village.name r) pattern = true)
  ∧ (Claimant.village_id c = None → Js.truthy (village_name b) = true →
       ∀ r pattern, r ∈ villages st →
                    Js.pg_text (village_name b) = Some pattern →
                    ilike (Village.name r) pattern = false).
Proof.
  intros (row & Hrow & ->). unfold post_claim_with.
  destruct (Js.truthy (name b)) eqn:Hn; cbn [negb orb]; [|done].
  destruct (Js.truthy (claimant_type b)) eqn:Ht; cbn [negb orb]; [|done].
  destruct (valid_type (claimant_type b)) eqn:Hv; cbn [negb]; [|done].
  assert (Htype : Js.pg_text (claimant_type b) = Some "IFR"%string
                  ∨ Js.pg_text (claimant_type b) = Some "CR"%string).
  { destruct (claimant_type b) as [| | | |s|]; try done. cbn in Hv |- *.
    apply orb_true_iff in Hv as [->%String.eqb_eq| ->%String.eqb_eq]; auto. }
  destruct (Js.truthy (village_name b)) eqn:Hvn.
  - destruct flt; try done;
      destruct (Js.pg_text (name b)) as [n|] eqn:Hname; try done;
      cbn [fst snd]; intros [= <- <-];
      cbn [villages claimants Claimant.id Claimant.name Claimant.claimant_type
           Claimant.status Claimant.village_id new_claim].
    split_and!; try done.
    + rewrite bool_decide_eq_true. destruct row as [r|]; cbn.
      * split; [by eauto|done].
      * split; [done|by intros [? ?]].
    + intros vid Hvid. split; [done|].
      destruct row as [r|]; cbn in Hvid; [|done]. injection Hvid as <-.
      cbn in Hrow. unfold matching in Hrow.
      destruct (Js.pg_text (village_name b)) as [pat|]; cbn in Hrow;
        [|by apply elem_of_nil in Hrow].
      apply list_elem_of_In, filter_In in Hrow as [Hin Hm].
      exists r, pat. split_and!; try done. by apply list_elem_of_In.
    + intros Hnone _ r pat Hin Hpat.
      destruct row as [r'|]; cbn in Hnone; [done|].
      cbn in Hrow. unfold matching in Hrow. rewrite Hpat in Hrow.
      apply ImportExtra.filter_nil_forall in Hrow.
      rewrite Forall_forall in Hrow. by apply Hrow.
  - destruct flt; try done;
      destruct (Js.pg_text (name b)) as [n|] eqn:Hname; try done;
      cbn [fst snd]; intros [= <- <-];
      cbn [villages claimants Claimant.id Claimant.name Claimant.claimant_type
           Claimant.status Claimant.village_id new_claim].
    all: split_and!; try done.
    all: rewrite bool_decide_eq_true; split; [done|by intros [? ?]].
Qed.

Lemma post_claim_creates_valid_row_witness :
  ∃ c, post_claim same_text sample_store
         (sample_body (Js.Str "Asha") (Js.Str "IFR") (Js.Str "Rampur")) Served
         (Created c true,
          {| villages := villages sample_store; claimants := [c];
             next_id := 2 |})
       ∧ Claimant.village_id c = Some 4%Z
       ∧ Claimant.status c = Some "pending"%string.
Proof.
  eexists. split.
  - exists (Some (VillagesApi.sample_row 4 "Rampur" None None)).
    split; [by left|reflexivity].
  - split; [reflexivity|].
    eapply (post_claim_creates_valid_row same_text sample_store
              (sample_body (Js.Str "Asha") (Js.Str "IFR") (Js.Str "Rampur"))
              Served).
    + exists (Some (VillagesApi.sample_row 4 "Rampur" None None)).
      split; [by left|reflexivity].
    + reflexivity.
Defined.

End ClaimsFacts.
